(** * Agent-AI: the streaming event-translation layer

  A shallow embedding of [src/app/main.py], [src/app/utils.py],
  [src/schema/schema.py] and the agent set-up of
  [src/agents/Agent_AI] of the Agent-AI repository, with the
  properties of its SSE protocol.

  Conventions of the embedding.
  - A Python [str] is a [string]; every character is the code point
    of the same number (code points below 256).
  - A JSON-serializable Python value is a [json]; floats are left out.
  - A Python exception is an [exn]; [str_exn] is [str(e)].
  - A [dict] that is only looked up by key is a [gmap]; a [dict] or
    list that is iterated is a list in iteration order.
  - An async generator is the list of the values it yields, with the
    state it leaves and the exception it ends with, if any. *)

From Stdlib Require Import String Ascii List ZArith Bool Lia DecimalString.
From stdpp Require Import base option list gmap strings.

Open Scope string_scope.
Open Scope list_scope.

(** ** Characters and strings *)

Module Str.

Definition LF : ascii := "010"%char.
Definition DQUOTE : ascii := "034"%char.
Definition BACKSLASH : ascii := "092"%char.

(** The one-character string ["\n"]. *)
Definition nl : string := String LF "".

(** [needle in hay] on Python strings. *)
Fixpoint contains (needle hay : string) : bool :=
  String.prefix needle hay
  || match hay with
     | "" => false
     | String _ hay' => contains needle hay'
     end.

(** Truth value of a Python [str]. *)
Definition truthy (s : string) : bool :=
  match s with "" => false | _ => true end.

Definition chars (s : string) : list ascii := list_ascii_of_string s.

(** No raw line feed in the text. *)
Definition single_line (s : string) : Prop := Forall (fun c => c <> LF) (chars s).

Definition upper (c : ascii) : ascii :=
  let n := nat_of_ascii c in
  if (97 <=? n)%nat && (n <=? 122)%nat then ascii_of_nat (n - 32) else c.

Definition lower (c : ascii) : ascii :=
  let n := nat_of_ascii c in
  if (65 <=? n)%nat && (n <=? 90)%nat then ascii_of_nat (n + 32) else c.

Fixpoint map (f : ascii -> ascii) (s : string) : string :=
  match s with
  | "" => ""
  | String c s' => String (f c) (map f s')
  end.


End Str.

(** ** JSON values and [json.dumps] *)

#[warnings="-register-all"]
Inductive json : Type :=
| JNull
| JBool (b : bool)
| JInt (n : Z)
| JStr (s : string)
| JList (items : list json)
| JDict (items : list (string * json)).

(** Induction on JSON values through the lists they nest. *)
Section json_nested_ind.

Variable P : json -> Prop.
Hypothesis HNull : P JNull.
Hypothesis HBool : forall b, P (JBool b).
Hypothesis HInt : forall n, P (JInt n).
Hypothesis HStr : forall s, P (JStr s).
Hypothesis HList : forall items, Forall P items -> P (JList items).
Hypothesis HDict : forall items, Forall (fun kv => P (snd kv)) items -> P (JDict items).

Fixpoint json_nested_ind (v : json) : P v :=
  match v with
  | JNull => HNull
  | JBool b => HBool b
  | JInt n => HInt n
  | JStr s => HStr s
  | JList items =>
      HList items
        ((fix go (l : list json) : Forall P l :=
            match l with
            | [] => @List.Forall_nil _ P
            | x :: l' => @List.Forall_cons _ P x l' (json_nested_ind x) (go l')
            end) items)
  | JDict items =>
      HDict items
        ((fix go (l : list (string * json)) : Forall (fun kv => P (snd kv)) l :=
            match l with
            | [] => @List.Forall_nil _ _
            | kv :: l' =>
                @List.Forall_cons _ (fun kv => P (snd kv)) kv l'
                  (json_nested_ind (snd kv)) (go l')
            end) items)
  end.

End json_nested_ind.

Module Json.

Definition hex_digit (n : nat) : ascii :=
  nth n (Str.chars "0123456789abcdef") "0"%char.

(** One character of [py_encode_basestring_ascii]: the short escapes
    of [ESCAPE_DCT], the printable ASCII range as it is, and
    [\uXXXX] for everything else. *)
Definition escape_char (c : ascii) : string :=
  let n := nat_of_ascii c in
  if (n =? 92)%nat then String Str.BACKSLASH (String Str.BACKSLASH "")
  else if (n =? 34)%nat then String Str.BACKSLASH (String Str.DQUOTE "")
  else if (n =? 8)%nat then String Str.BACKSLASH "b"
  else if (n =? 12)%nat then String Str.BACKSLASH "f"
  else if (n =? 10)%nat then String Str.BACKSLASH "n"
  else if (n =? 13)%nat then String Str.BACKSLASH "r"
  else if (n =? 9)%nat then String Str.BACKSLASH "t"
  else if (32 <=? n)%nat && (n <=? 126)%nat then String c ""
  else String Str.BACKSLASH
         (String "u" (String "0" (String "0"
           (String (hex_digit (n / 16)) (String (hex_digit (n mod 16)) ""))))).

Fixpoint escape (s : string) : string :=
  match s with
  | "" => ""
  | String c s' => escape_char c +:+ escape s'
  end.

Definition encode_str (s : string) : string :=
  String Str.DQUOTE (escape s +:+ String Str.DQUOTE "").

Definition encode_int (n : Z) : string :=
  NilZero.string_of_int (Z.to_int n).

(** [json.dumps(v)] with the default arguments: [ensure_ascii=True],
    no indentation, separators [", "] and [": "]. *)
Fixpoint dumps (v : json) : string :=
  match v with
  | JNull => "null"
  | JBool true => "true"
  | JBool false => "false"
  | JInt n => encode_int n
  | JStr s => encode_str s
  | JList items =>
      "[" +:+ String.concat ", " (List.map dumps items) +:+ "]"
  | JDict items =>
      "{" +:+ String.concat ", "
                (List.map (fun '(k, x) => encode_str k +:+ ": " +:+ dumps x) items)
          +:+ "}"
  end.

(** Truth value of a Python object that is a JSON value. *)
Definition truthy (v : json) : bool :=
  match v with
  | JNull => false
  | JBool b => b
  | JInt n => negb (n =? 0)%Z
  | JStr s => Str.truthy s
  | JList items => match items with [] => false | _ => true end
  | JDict items => match items with [] => false | _ => true end
  end.

(** [d.get(key)] on a dict given by its items. *)
Fixpoint get (key : string) (d : list (string * json)) : option json :=
  match d with
  | [] => None
  | (k, x) :: d' => if String.eqb k key then Some x else get key d'
  end.

End Json.

(** ** SSE frames: [create_sse_data] *)

(** [SSEMessageBase]: a type and a content; the content [None] is
  [JNull]. *)
Record SSEMessage : Type := {
sse_type : string;
sse_content : json
}.

Definition create_sse_data (message : SSEMessage) : string :=
let event_type := sse_type message in
let content := sse_content message in
let result := "event: " +:+ event_type +:+ Str.nl in
let result :=
  match content with
  | JNull => result
  | _ => result +:+ ("data: " +:+ Json.dumps content +:+ Str.nl)
  end in
result +:+ Str.nl.

(** ** Exceptions *)

(** The exceptions the translation layer raises or receives; all are
    subclasses of [Exception].  [RuntimeException] stands for any other
    exception of the event source, with its text. *)
Inductive exn : Type :=
| MessageConversionError (msg : string)
| KeyError (key : string)
| AttributeError (msg : string)
| TypeError (msg : string)
| IndexError (msg : string)
| UnboundLocalError (name : string)
| RuntimeException (msg : string).

(** [str(e)]. *)
Definition str_exn (e : exn) : string :=
  match e with
  | MessageConversionError msg => msg
  | KeyError key => "'" +:+ key +:+ "'"
  | AttributeError msg => msg
  | TypeError msg => msg
  | IndexError msg => msg
  | UnboundLocalError name =>
      "cannot access local variable '" +:+ name
      +:+ "' where it is not associated with a value"
  | RuntimeException msg => msg
  end.

(** A computation that returns or raises. *)
Definition result (A : Type) : Type := exn + A.

(** ** Messages of the agent runtime and [ChatMessage] *)

(** [ToolCall]: a dict; a key that is absent is [None] here, and the
    value of ["id"] may itself be Python's [None]. *)
Record ToolCall : Type := {
  tc_name : option string;
  tc_args : option json;
  tc_id : option (option string)
}.

(** An item of a list content: a [str] or a [dict]. *)
Inductive ContentItem : Type :=
| ItemStr (s : string)
| ItemDict (d : list (string * json)).

(** [content: str | list[str | dict]]. *)
Inductive MessageContent : Type :=
| ContentStr (s : string)
| ContentList (items : list ContentItem).

(** The [BaseMessage] classes [langchain_to_chat_message] tells apart;
    [OtherMessage] is any other class, by its name. *)
Inductive BaseMessage : Type :=
| HumanMessage (content : MessageContent)
| AIMessage (content : MessageContent) (tool_calls : list ToolCall)
            (response_metadata : list (string * json))
| ToolMessage (content : MessageContent) (tool_call_id : string)
| OtherMessage (class_name : string).

Inductive MessageType : Type := human | ai | tool | custom.

Record ChatMessage : Type := {
  msg_type : MessageType;
  msg_content : string;
  msg_tool_calls : list ToolCall;
  msg_tool_call_id : option string;
  msg_thread_id : option string;
  msg_run_id : option string;
  msg_response_metadata : list (string * json)
}.

(** [ChatMessage(type=..., content=..., tool_call_id=...)] with the
    defaults of the other fields. *)
Definition mkChatMessage (t : MessageType) (content : string)
    (tool_call_id : option string) : ChatMessage :=
  {| msg_type := t; msg_content := content; msg_tool_calls := [];
     msg_tool_call_id := tool_call_id; msg_thread_id := None;
     msg_run_id := None; msg_response_metadata := [] |}.

Definition set_tool_calls (m : ChatMessage) (tcs : list ToolCall) : ChatMessage :=
  {| msg_type := msg_type m; msg_content := msg_content m; msg_tool_calls := tcs;
     msg_tool_call_id := msg_tool_call_id m; msg_thread_id := msg_thread_id m;
     msg_run_id := msg_run_id m; msg_response_metadata := msg_response_metadata m |}.

Definition set_response_metadata (m : ChatMessage) (md : list (string * json))
    : ChatMessage :=
  {| msg_type := msg_type m; msg_content := msg_content m;
     msg_tool_calls := msg_tool_calls m;
     msg_tool_call_id := msg_tool_call_id m; msg_thread_id := msg_thread_id m;
     msg_run_id := msg_run_id m; msg_response_metadata := md |}.

Definition set_run_thread (m : ChatMessage) (run_id thread_id : string) : ChatMessage :=
  {| msg_type := msg_type m; msg_content := msg_content m;
     msg_tool_calls := msg_tool_calls m;
     msg_tool_call_id := msg_tool_call_id m; msg_thread_id := Some thread_id;
     msg_run_id := Some run_id; msg_response_metadata := msg_response_metadata m |}.

(** ** [app/utils.py] *)

Definition json_is_str (v : json) (s : string) : bool :=
  match v with JStr s' => String.eqb s' s | _ => false end.

(** The list comprehension of [remove_tool_calls]:
    [content_item["type"]] raises [KeyError] on a dict without it. *)
Fixpoint remove_tool_use (items : list ContentItem) : result (list ContentItem) :=
  match items with
  | [] => inr []
  | ItemStr s :: items' =>
      match remove_tool_use items' with
      | inl e => inl e
      | inr kept => inr (ItemStr s :: kept)
      end
  | ItemDict d :: items' =>
      match Json.get "type" d with
      | None => inl (KeyError "type")
      | Some t =>
          match remove_tool_use items' with
          | inl e => inl e
          | inr kept =>
              if json_is_str t "tool_use" then inr kept else inr (ItemDict d :: kept)
          end
      end
  end.

Definition remove_tool_calls (content : MessageContent) : result MessageContent :=
  match content with
  | ContentStr s => inr (ContentStr s)
  | ContentList items =>
      match remove_tool_use items with
      | inl e => inl e
      | inr kept => inr (ContentList kept)
      end
  end.

(** The name of the class of a JSON value, for the text of a
    [TypeError]. *)
Definition type_name (v : json) : string :=
  match v with
  | JNull => "NoneType"
  | JBool _ => "bool"
  | JInt _ => "int"
  | JStr _ => "str"
  | JList _ => "list"
  | JDict _ => "dict"
  end.

(** The list [text] that [convert_message_content_to_string] collects:
    the [str] items, and of a dict of type ["text"] its ["text"] or
    [""]. *)
Fixpoint collect_text (items : list ContentItem) : list json :=
  match items with
  | [] => []
  | ItemStr s :: items' => JStr s :: collect_text items'
  | ItemDict d :: items' =>
      match Json.get "type" d with
      | Some t =>
          if json_is_str t "text"
          then default (JStr "") (Json.get "text" d) :: collect_text items'
          else collect_text items'
      | None => collect_text items'
      end
  end.

(** [[""].join(text)]: raises on the first item that is not a [str]. *)
Fixpoint join_text (i : nat) (text : list json) : result string :=
  match text with
  | [] => inr ""
  | JStr s :: text' =>
      match join_text (S i) text' with
      | inl e => inl e
      | inr rest => inr (s +:+ rest)
      end
  | v :: _ =>
      inl (TypeError ("sequence item " +:+ NilZero.string_of_uint (Nat.to_uint i)
                      +:+ ": expected str instance, " +:+ type_name v +:+ " found"))
  end.

Definition convert_message_content_to_string (content : MessageContent)
    : result string :=
  match content with
  | ContentStr s => inr s
  | ContentList items => join_text 0 (collect_text items)
  end.

(** The body of the [try] of [langchain_to_chat_message]. *)
Definition langchain_to_chat_message_body (message : BaseMessage)
    : result ChatMessage :=
  match message with
  | HumanMessage content =>
      match convert_message_content_to_string content with
      | inl e => inl e
      | inr s => inr (mkChatMessage human s None)
      end
  | AIMessage content tool_calls response_metadata =>
      match convert_message_content_to_string content with
      | inl e => inl e
      | inr s =>
          let ai_message := mkChatMessage ai s None in
          let ai_message :=
            match tool_calls with
            | [] => ai_message
            | _ => set_tool_calls ai_message tool_calls
            end in
          let ai_message :=
            match response_metadata with
            | [] => ai_message
            | _ => set_response_metadata ai_message response_metadata
            end in
          inr ai_message
      end
  | ToolMessage content tool_call_id =>
      match convert_message_content_to_string content with
      | inl e => inl e
      | inr s => inr (mkChatMessage tool s (Some tool_call_id))
      end
  | OtherMessage class_name =>
      inl (MessageConversionError ("Unsupported message type: " +:+ class_name))
  end.

Definition is_MessageConversionError (e : exn) : bool :=
  match e with MessageConversionError _ => true | _ => false end.

Definition langchain_to_chat_message (message : BaseMessage) : result ChatMessage :=
  match langchain_to_chat_message_body message with
  | inl e =>
      if is_MessageConversionError e then inl e
      else inl (MessageConversionError ("Failed to convert message: " +:+ str_exn e))
  | inr m => inr m
  end.

(** [get_user_info]: the mock. *)
Definition get_user_info (token thread_id run_id : string) : string :=
  "Op" +:+ String "233"%char "rateur".

(** ** Generators *)

(** One stretch of a generator over a state [S]: the values yielded,
    the state left, and the exception raised, if any.  The values
    yielded before an exception have been delivered to the consumer. *)
Definition step (S Y : Type) : Type := S -> list Y * S * option exn.

(** A [for] loop whose body is a stretch: it stops at the first
    exception; a [continue] ends the body normally. *)
Fixpoint for_each {A S Y : Type} (body : A -> step S Y) (l : list A) : step S Y :=
  fun st =>
    match l with
    | [] => ([], st, None)
    | x :: l' =>
        let '(ys, st1, r) := body x st in
        match r with
        | Some e => (ys, st1, Some e)
        | None =>
            let '(ys', st2, r') := for_each body l' st1 in
            (ys ++ ys', st2, r')
        end
    end.

(** ** The event translator: [process_stream_updates] *)

(** An entry of [tool_executions]: [{"name": ..., "params": ...}]. *)
Record ToolInfo : Type := {
  ti_name : string;
  ti_params : json
}.

(** An interrupt of the runtime, by the attributes the code reads:
    [process_stream_updates] reads [content], [invoke] reads [value];
    an attribute the object does not have is [None]. *)
Record Interrupt : Type := {
  interrupt_value : option json;
  interrupt_content : option json
}.

(** The value of a node in an "updates" event: a sequence of
    interrupts, a state update (a dict, with its ["messages"] if it has
    the key), or [None] for a node that returned nothing. *)
Inductive Updates : Type :=
| UInterrupts (interrupts : list Interrupt)
| UState (messages : option (list BaseMessage))
| UNone.

(** The state of one call: the two shared objects [tool_executions]
    and [completed_tools], which the call mutates in place, and the
    locals [stream_started] and [chat_message] ([None]: not bound). *)
Record psu_state : Type := {
  tool_executions : gmap (option string) ToolInfo;
  completed_tools : list string;
  stream_started : bool;
  chat_message : option ChatMessage
}.

Definition set_started (st : psu_state) : psu_state :=
  {| tool_executions := tool_executions st; completed_tools := completed_tools st;
     stream_started := true; chat_message := chat_message st |}.

Definition bind_chat_message (m : ChatMessage) (st : psu_state) : psu_state :=
  {| tool_executions := tool_executions st; completed_tools := completed_tools st;
     stream_started := stream_started st; chat_message := Some m |}.

Definition store_tool (id : option string) (info : ToolInfo) (st : psu_state)
    : psu_state :=
  {| tool_executions := <[id := info]> (tool_executions st);
     completed_tools := completed_tools st;
     stream_started := stream_started st; chat_message := chat_message st |}.

(** [tool_executions.pop(id)], and the [append] to [completed_tools]
    when [completed] is given. *)
Definition pop_tool (id : option string) (completed : list string) (st : psu_state)
    : psu_state :=
  {| tool_executions := delete id (tool_executions st);
     completed_tools := completed_tools st ++ completed;
     stream_started := stream_started st; chat_message := chat_message st |}.

(** The frames. *)
Definition sse_stream_start : string :=
  create_sse_data {| sse_type := "stream_start"; sse_content := JNull |}.

Definition sse_stream_token (token : json) : string :=
  create_sse_data {| sse_type := "stream_token";
                     sse_content := JDict [("token", token)] |}.

Definition sse_tool_execution_start (name : string) (params : json) : string :=
  create_sse_data {| sse_type := "tool_execution_start";
                     sse_content := JDict [("name", JStr name); ("params", params)] |}.

Definition sse_tool_execution_complete (name : string) (params : json) : string :=
  create_sse_data {| sse_type := "tool_execution_complete";
                     sse_content := JDict [("name", JStr name); ("params", params)] |}.

Definition sse_error (content : string) : string :=
  create_sse_data {| sse_type := "error"; sse_content := JStr content |}.

Definition sse_stream_end (thread_id : string) : string :=
  create_sse_data {| sse_type := "stream_end";
                     sse_content := JDict [("thread_id", JStr thread_id)] |}.

(** What [process_stream_updates] yields: a frame and the flag. *)
Definition psu_yield : Type := string * bool.

(** The body of [for interrupt in updates]. *)
Definition process_interrupt (interrupt : Interrupt) : step psu_state psu_yield :=
  fun st =>
    match interrupt_content interrupt with
    | None =>
        ([], st, Some (AttributeError "'Interrupt' object has no attribute 'content'"))
    | Some content =>
        if negb (stream_started st) && Json.truthy content then
          ([(sse_stream_start, true); (sse_stream_token content, true)],
           set_started st, None)
        else
          ([(sse_stream_token content, stream_started st)], st, None)
    end.

(** The body of [for tool_call in chat_message.tool_calls]: the dict
    display is evaluated first, then the subscript of the target. *)
Definition record_tool_call (tool_call : ToolCall) : step psu_state psu_yield :=
  fun st =>
    match tc_name tool_call with
    | None => ([], st, Some (KeyError "name"))
    | Some name =>
        match tc_args tool_call with
        | None => ([], st, Some (KeyError "args"))
        | Some args =>
            match tc_id tool_call with
            | None => ([], st, Some (KeyError "id"))
            | Some id =>
                let st1 := store_tool id {| ti_name := name; ti_params := args |} st in
                ([(sse_tool_execution_start name args, stream_started st1)], st1, None)
            end
        end
    end.

Definition is_human (t : MessageType) : bool :=
  match t with human => true | _ => false end.

Definition is_tool (t : MessageType) : bool :=
  match t with tool => true | _ => false end.

(** The body of the [try] for one message. *)
Definition translate_message (run_id thread_id user_input : string)
    (message : BaseMessage) : step psu_state psu_yield :=
  fun st =>
    match langchain_to_chat_message message with
    | inl e => ([], st, Some e)
    | inr m =>
        let m := set_run_thread m run_id thread_id in
        let st := bind_chat_message m st in
        if is_human (msg_type m) && String.eqb (msg_content m) user_input then
          ([], st, None)
        else
          match msg_tool_calls m with
          | _ :: _ => for_each record_tool_call (msg_tool_calls m) st
          | [] =>
              if is_tool (msg_type m) then
                let tool_id := msg_tool_call_id m in
                match tool_executions st !! tool_id with
                | Some tool_info =>
                    let st1 := pop_tool tool_id [ti_name tool_info] st in
                    ([(sse_tool_execution_complete (ti_name tool_info)
                         (ti_params tool_info), stream_started st1)], st1, None)
                | None => ([], st, None)
                end
              else if Str.truthy (msg_content m) then
                if negb (stream_started st) then
                  ([(sse_stream_start, true);
                    (sse_stream_token (JStr (msg_content m)), true)],
                   set_started st, None)
                else
                  ([(sse_stream_token (JStr (msg_content m)), stream_started st)],
                   st, None)
              else ([], st, None)
          end
    end.

(** The [except Exception] clause for one message.  It reads the local
    [chat_message], which is the message of an earlier iteration of this
    call when the conversion of the current one raised, and is not bound
    when no message of this call was converted yet. *)
Definition message_error_handler : step psu_state psu_yield :=
  fun st =>
    let ys := if stream_started st then [] else [(sse_stream_start, true)] in
    let st := set_started st in
    match chat_message st with
    | None => (ys, st, Some (UnboundLocalError "chat_message"))
    | Some m =>
        let st1 :=
          match tool_executions st !! msg_tool_call_id m with
          | Some _ => pop_tool (msg_tool_call_id m) [] st
          | None => st
          end in
        (ys ++ [(sse_error "Unexpected error", stream_started st1)], st1, None)
    end.

(** [try: ... except Exception: ...] for one message. *)
Definition process_message (run_id thread_id user_input : string)
    (message : BaseMessage) : step psu_state psu_yield :=
  fun st =>
    let '(ys, st1, r) := translate_message run_id thread_id user_input message st in
    match r with
    | None => (ys, st1, None)
    | Some _ =>
        let '(ys', st2, r') := message_error_handler st1 in
        (ys ++ ys', st2, r')
    end.

(** The body of [for node, updates in event.items()]. *)
Definition process_node (run_id thread_id user_input : string)
    (item : string * Updates) : step psu_state psu_yield :=
  fun st =>
    let '(node, updates) := item in
    if String.eqb node "__interrupt__" then
      match updates with
      | UInterrupts interrupts => for_each process_interrupt interrupts st
      | UState None => ([], st, None)
      | UState (Some _) =>
          ([], st, Some (AttributeError "'str' object has no attribute 'content'"))
      | UNone => ([], st, Some (TypeError "'NoneType' object is not iterable"))
      end
    else
      match updates with
      | UState messages =>
          for_each (process_message run_id thread_id user_input)
                   (default [] messages) st
      | UInterrupts _ =>
          ([], st, Some (AttributeError "'tuple' object has no attribute 'get'"))
      | UNone =>
          ([], st, Some (AttributeError "'NoneType' object has no attribute 'get'"))
      end.

(** [process_stream_updates]: the pairs yielded, the two shared
    objects as the call leaves them, and the exception it ends with. *)
Definition process_stream_updates (event : list (string * Updates))
    (run_id thread_id user_input : string)
    (tool_executions0 : gmap (option string) ToolInfo) (stream_started0 : bool)
    (completed_tools0 : list string)
    : list psu_yield * psu_state * option exn :=
  for_each (process_node run_id thread_id user_input) event
    {| tool_executions := tool_executions0; completed_tools := completed_tools0;
       stream_started := stream_started0; chat_message := None |}.

(** ** The agent registry: [agents/agents.py] *)

(** The keys of the dict [agents]. *)
Definition agents : list string := ["Agent-AI"].

(** [get_agent]: [agents[agent_id].graph]; the graph is known here by
    its name. *)
Definition get_agent (agent_id : string) : result string :=
  if existsb (String.eqb agent_id) agents then inr "Agent_AI"
  else inl (KeyError agent_id).

(** ** Requests: [UserInput] and [_handle_input] *)

Record UserInput : Type := {
  message : string;
  thread_id : option string
}.

(** The values the two calls of [uuid4()] in [_handle_input] return. *)
Record Uuids : Type := {
  uuid_run : string;
  uuid_thread : string
}.

(** [user_input.thread_id or str(uuid4())]. *)
Definition thread_id_or_fresh (user_input : UserInput) (ids : Uuids) : string :=
  match thread_id user_input with
  | Some t => if Str.truthy t then t else uuid_thread ids
  | None => uuid_thread ids
  end.

(** [_handle_input]: the input messages, the run id and the thread
    id. *)
Definition _handle_input (user_input : UserInput) (ids : Uuids)
    : list BaseMessage * string * string :=
  ([HumanMessage (ContentStr (message user_input))],
   uuid_run ids, thread_id_or_fresh user_input ids).

(** ** The stream driver: [message_generator] *)

(** The first component of a "messages" event. *)
Inductive StreamedMessage : Type :=
| AIMessageChunk (content : MessageContent)
| NotAChunk.

(** A "custom" event: an exception, or a dict with the value of its
    ["event_type"] and its ["data"]. *)
Inductive CustomEvent : Type :=
| CustomException (e : exn)
| CustomData (event_type : string) (data : json).

(** What [agent.astream] produces: something that is not a tuple, or a
    pair of a stream mode and its event. *)
Inductive StreamEvent : Type :=
| NotATuple
| UpdatesEvent (event : list (string * Updates))
| MessagesEvent (msg : StreamedMessage) (tags : option (list string))
| CustomEventOf (event : CustomEvent)
| OtherMode (stream_mode : string).

(** How the event source ends after the events it produced: it is
    exhausted, it raises, or the task is cancelled while the driver
    awaits the next event. *)
Inductive SourceEnd : Type :=
| Exhausted
| Raises (e : exn)
| CancelledAtAwait.

(** The locals of [message_generator] that the loop updates. *)
Record gen_state : Type := {
  g_tool_executions : gmap (option string) ToolInfo;
  g_completed_tools : list string;
  g_stream_started : bool;
  complete_message : string
}.

Definition is_tool_frame (frame : string) : bool :=
  Str.contains "event: tool_execution_start" frame
  || Str.contains "event: tool_execution_complete" frame.

(** The body of the [async for] over [process_stream_updates]: the
    frames forwarded and the flag. *)
Fixpoint forward_updates (ys : list psu_yield) (started : bool) : list string * bool :=
  match ys with
  | [] => ([], started)
  | (frame, new_stream_started) :: ys' =>
      if is_tool_frame frame then
        let '(out, started') := forward_updates ys' started in
        (frame :: out, started')
      else if new_stream_started && negb started then
        forward_updates ys' new_stream_started
      else forward_updates ys' started
  end.

Definition content_truthy (content : MessageContent) : bool :=
  match content with
  | ContentStr s => Str.truthy s
  | ContentList items => match items with [] => false | _ => true end
  end.

Definition concat_list_error : exn :=
  TypeError ("can only concatenate str (not " +:+ String Str.DQUOTE "list"
             +:+ String Str.DQUOTE ") to str").

(** The body of the [async for] over [agent.astream]. *)
Definition handle_stream_event (run_id thread_id user_input : string)
    (stream_event : StreamEvent) : step gen_state string :=
  fun st =>
    match stream_event with
    | NotATuple => ([], st, None)
    | UpdatesEvent event =>
        let '(ys, pst, r) :=
          process_stream_updates event run_id thread_id user_input
            (g_tool_executions st) (g_stream_started st) (g_completed_tools st) in
        let '(out, started) := forward_updates ys (g_stream_started st) in
        (out,
         {| g_tool_executions := tool_executions pst;
            g_completed_tools := completed_tools pst;
            g_stream_started := started;
            complete_message := complete_message st |},
         r)
    | MessagesEvent msg tags =>
        if existsb (String.eqb "skip_stream") (default [] tags) then ([], st, None)
        else
          match msg with
          | NotAChunk => ([], st, None)
          | AIMessageChunk content0 =>
              match remove_tool_calls content0 with
              | inl e => ([], st, Some e)
              | inr content =>
                  if content_truthy content then
                    let out := if g_stream_started st then [] else [sse_stream_start] in
                    match content with
                    | ContentStr s =>
                        (out ++ [sse_stream_token (JStr s)],
                         {| g_tool_executions := g_tool_executions st;
                            g_completed_tools := g_completed_tools st;
                            g_stream_started := true;
                            complete_message := complete_message st +:+ s |},
                         None)
                    | ContentList _ =>
                        (out,
                         {| g_tool_executions := g_tool_executions st;
                            g_completed_tools := g_completed_tools st;
                            g_stream_started := true;
                            complete_message := complete_message st |},
                         Some concat_list_error)
                    end
                  else ([], st, None)
              end
          end
    | CustomEventOf (CustomException e) =>
        ((if g_stream_started st then [] else [sse_stream_start])
           ++ [sse_error (str_exn e)],
         {| g_tool_executions := g_tool_executions st;
            g_completed_tools := g_completed_tools st;
            g_stream_started := true;
            complete_message := complete_message st |},
         None)
    | CustomEventOf (CustomData event_type data) =>
        ([create_sse_data {| sse_type := event_type; sse_content := data |}], st, None)
    | OtherMode _ => ([], st, None)
    end.

(** How a generator ends: it returns, or an exception or the
    cancellation leaves it. *)
Inductive Ending : Type :=
| Returned
| Propagated (e : exn)
| CancelledError.

Definition initial_gen_state : gen_state :=
  {| g_tool_executions := ∅; g_completed_tools := [];
     g_stream_started := false; complete_message := "" |}.

(** [message_generator]: the frames sent to the client, in order, and
    how the generator ends.  [events] and [ending] are what
    [agent.astream] produces for the run. *)
Definition message_generator (user_input : UserInput) (user_info date agent_id : string)
    (ids : Uuids) (events : list StreamEvent) (ending : SourceEnd)
    : list string * Ending :=
  match get_agent agent_id with
  | inl e => ([], Propagated e)
  | inr _ =>
      let '(_, run_id, thread_id) := _handle_input user_input ids in
      let '(out, st, r) :=
        for_each (handle_stream_event run_id thread_id (message user_input))
                 events initial_gen_state in
      let raised :=
        match r with
        | Some e => Some e
        | None => match ending with Raises e => Some e | _ => None end
        end in
      let out_except :=
        match raised with
        | Some e =>
            (if g_stream_started st then [] else [sse_stream_start])
              ++ [sse_error (str_exn e)]
        | None => []
        end in
      let out_finally :=
        if g_stream_started st then [sse_stream_end thread_id] else [] in
      (out ++ out_except ++ out_finally,
       match r, ending with
       | None, CancelledAtAwait => CancelledError
       | _, _ => Returned
       end)
  end.

(** ** The single-shot handler: [invoke] *)

(** One element of what [agent.ainvoke] returns: the response type and
    the response, a dict given by the two keys the handler reads. *)
Record InvokeEvent : Type := {
  response_type : string;
  response_messages : option (list BaseMessage);
  response_interrupt : option Updates
}.

(** How [agent.ainvoke] ends. *)
Inductive AgentOutcome : Type :=
| AgentReturns (response_events : list InvokeEvent)
| AgentRaises (e : exn)
| AgentCancelled.

Record AgentResponse : Type := {
  resp_content : string;
  resp_thread_id : string;
  resp_run_id : string
}.

(** An [AgentError]: the name of its class, its message and its status
    code. *)
Record AgentError : Type := {
  err_class : string;
  err_message : string;
  err_status_code : nat
}.

Definition AgentExecutionError (msg : string) : AgentError :=
  {| err_class := "AgentExecutionError"; err_message := msg; err_status_code := 400 |}.

Definition unexpected_error : AgentError :=
  {| err_class := "AgentError"; err_message := "An unexpected error occurred";
     err_status_code := 500 |}.

(** A JSON value as the [content] of an [AIMessage]: a [str], or a
    list of [str] and [dict]; anything else fails validation. *)
Definition content_item_of_json (v : json) : option ContentItem :=
  match v with
  | JStr s => Some (ItemStr s)
  | JDict d => Some (ItemDict d)
  | _ => None
  end.

Definition content_of_json (v : json) : result MessageContent :=
  match v with
  | JStr s => inr (ContentStr s)
  | JList items =>
      match mapM content_item_of_json items with
      | Some l => inr (ContentList l)
      | None => inl (RuntimeException "validation error for AIMessage")
      end
  | _ => inl (RuntimeException "validation error for AIMessage")
  end.

(** [response["__interrupt__"][0].value]. *)
Definition first_interrupt_value (u : Updates) : result json :=
  match u with
  | UInterrupts [] => inl (IndexError "tuple index out of range")
  | UInterrupts (i :: _) =>
      match interrupt_value i with
      | Some v => inr v
      | None => inl (AttributeError "'Interrupt' object has no attribute 'value'")
      end
  | UState _ => inl (KeyError "0")
  | UNone => inl (TypeError "'NoneType' object is not subscriptable")
  end.

(** The part of [invoke] after [agent.ainvoke] has returned: an
    [AgentError], another exception, or the output message. *)
Definition invoke_output (response_events : list InvokeEvent)
    : AgentError + result ChatMessage :=
  match last (response_events) with
  | None => inl (AgentExecutionError "No response received from agent")
  | Some ev =>
      if String.eqb (response_type ev) "values" then
        match response_messages ev with
        | None => inr (inl (KeyError "messages"))
        | Some messages =>
            match last messages with
            | None => inr (inl (IndexError "list index out of range"))
            | Some m => inr (langchain_to_chat_message m)
            end
        end
      else
        match String.eqb (response_type ev) "updates", response_interrupt ev with
        | true, Some u =>
            match first_interrupt_value u with
            | inl e => inr (inl e)
            | inr v =>
                match content_of_json v with
                | inl e => inr (inl e)
                | inr c => inr (langchain_to_chat_message (AIMessage c [] []))
                end
            end
        | _, _ =>
            inl (AgentExecutionError ("Unexpected response type: " +:+ response_type ev))
        end
  end.

(** [invoke]: the response, or the [AgentError] that leaves the
    handler. *)
Definition invoke (user_input : UserInput) (agent_id : string) (ids : Uuids)
    (outcome : AgentOutcome) : AgentError + AgentResponse :=
  match get_agent agent_id with
  | inl _ => inl unexpected_error
  | inr _ =>
      let '(_, run_id, thread_id) := _handle_input user_input ids in
      match outcome with
      | AgentReturns response_events =>
          match invoke_output response_events with
          | inl err => inl err
          | inr (inl _) => inl unexpected_error
          | inr (inr output) =>
              inr {| resp_content := msg_content output;
                     resp_thread_id := thread_id; resp_run_id := run_id |}
          end
      | AgentRaises _ => inl unexpected_error
      | AgentCancelled =>
          inr {| resp_content := "Generation was stopped.";
                 resp_thread_id := thread_id; resp_run_id := run_id |}
      end
  end.

(** ** The agent and its checkpointer: [agents/Agent_AI] *)

(** An entry of the conversation history:
    [{"role": ..., "content": ...}]. *)
Record HistoryEntry : Type := {
  role : string;
  entry_content : MessageContent
}.

(** [messages[-max_history_entries-1:-1] if len(messages) > 1 else []]. *)
Definition recent_messages (messages : list BaseMessage) (max_history_entries : nat)
    : list BaseMessage :=
  if (1 <? length messages)%nat then
    let n := length messages in
    drop (n - (max_history_entries + 1)) (take (n - 1) messages)
  else [].

(** The loop of [extract_conversation_history]. *)
Fixpoint history_of (msgs : list BaseMessage) : list HistoryEntry :=
  match msgs with
  | [] => []
  | HumanMessage content :: msgs' =>
      {| role := "utilisateur"; entry_content := content |} :: history_of msgs'
  | AIMessage content _ _ :: msgs' =>
      {| role := "assistant"; entry_content := content |} :: history_of msgs'
  | _ :: msgs' => history_of msgs'
  end.

Definition extract_conversation_history (messages : list BaseMessage)
    (max_history_entries : nat) : list HistoryEntry :=
  history_of (recent_messages messages max_history_entries).


Section Agent.

(** [str(content)] of a list content, inside an f-string. *)
Variable str_of_items : list ContentItem -> string.

(** [PromptTemplate(template=Agent_prompt, ...).format] of the three
    variables [user_info], [today_date] and [conversation_history];
    the template is the file [prompt.md]. *)
Variable Agent_prompt_format : string -> string -> string -> string.

(** The chat model: the text of its reply to the system message and
    the messages of the prompt. *)
Variable model : string -> list BaseMessage -> string.




(** The module-level [checkpointer = InMemorySaver()]: for every
    thread id, the messages of the state saved at the end of the last
    run of that thread.  It is created once, when the module is
    imported, and handed to [create_react_agent]; as the docstrings of
    [pre_model_hook] and [lifespan] say, the messages are kept between
    the runs of one [thread_id]. *)
Abbreviation Checkpointer := (gmap string (list BaseMessage)).




End Agent.

(** ** Notions for the statements about frame sequences *)

(** What follows the [event:] line of a frame. *)
Definition frame_body (content : json) : string :=
  match content with
  | JNull => ""
  | _ => "data: " +:+ Json.dumps content +:+ Str.nl
  end +:+ Str.nl.

(** The frames, among those [process_stream_updates] yields, that the
    driver sends to the client. *)
Definition forwarded (ys : list psu_yield) : list string :=
  List.filter is_tool_frame (List.map fst ys).





(** The declared type of every custom event that is not an exception
    is one line and is not [reserved]. *)
Definition custom_type_avoids (reserved : string) (stream_event : StreamEvent) : Prop :=
  match stream_event with
  | CustomEventOf (CustomData event_type _) =>
      Str.single_line event_type /\ event_type <> reserved
  | _ => True
  end.

(** A [stream_token] frame or an [error] frame. *)
Definition is_token_or_error (f : string) : Prop :=
  (exists c, f = sse_stream_token c) \/ (exists msg, f = sse_error msg).

(** Every [stream_start] frame of [frames], but one that is the last
    frame, has a [stream_token] or [error] frame right after it. *)
Fixpoint starts_followed (frames : list string) : Prop :=
  match frames with
  | [] => True
  | f :: rest =>
      (f = sse_stream_start ->
       match rest with
       | [] => True
       | g :: _ => is_token_or_error g
       end)
      /\ starts_followed rest
  end.

(** What the loop of the driver keeps about [stream_start]: the frames
    sent so far, the state, and the way the last iteration ended. *)
Definition start_inv (out : list string) (st : gen_state) (r : option exn) : Prop :=
  starts_followed out
  /\ (g_stream_started st = false -> ~ In sse_stream_start out)
  /\ count_occ string_dec out sse_stream_start <= 1
  /\ (r = None -> last out <> Some sse_stream_start).

(** What one iteration of the driver does about [stream_start]: it
    sends none; or it opens the stream with [stream_start] and one more
    frame; or it sends [stream_start] and raises. *)
Definition step_shape (started : bool) (fs : list string) (started' : bool)
    (r : option exn) : Prop :=
  (~ In sse_stream_start fs /\ (started = true -> started' = true))
  \/ (started = false /\ started' = true /\ r = None
      /\ exists g, is_token_or_error g /\ fs = [sse_stream_start; g])
  \/ (started = false /\ started' = true /\ r <> None /\ fs = [sse_stream_start]).

(** A tool call that has its three keys. *)
Definition well_formed_call (tool_call : ToolCall) : bool :=
  match tc_name tool_call, tc_args tool_call, tc_id tool_call with
  | Some _, Some _, Some _ => true
  | _, _, _ => false
  end.

(** A message of the "updates" channel without text for the client:
    the echo of the question, a request for tool calls, an empty answer
    of the model, or the result of a tool. *)
Definition silent_message (user_input : string) (m : BaseMessage) : bool :=
  match m with
  | HumanMessage (ContentStr s) => String.eqb s user_input
  | AIMessage (ContentStr s) tool_calls _ =>
      match tool_calls with
      | [] => negb (Str.truthy s)
      | _ => forallb well_formed_call tool_calls
      end
  | ToolMessage (ContentStr _) _ => true
  | _ => false
  end.

Definition silent_node (user_input : string) (item : string * Updates) : bool :=
  negb (String.eqb item.1 "__interrupt__")
  && match item.2 with
     | UState messages => forallb (silent_message user_input) (default [] messages)
     | _ => false
     end.

(** An event without text for the client: state updates of silent
    messages, token deltas that are skipped or empty, custom events
    that are not errors. *)
Definition silent_event (user_input : string) (stream_event : StreamEvent) : bool :=
  match stream_event with
  | NotATuple => true
  | OtherMode _ => true
  | UpdatesEvent event => forallb (silent_node user_input) event
  | MessagesEvent msg tags =>
      existsb (String.eqb "skip_stream") (default [] tags)
      || match msg with
         | NotAChunk => true
         | AIMessageChunk (ContentStr s) => negb (Str.truthy s)
         | AIMessageChunk (ContentList _) => false
         end
  | CustomEventOf (CustomData _ _) => true
  | CustomEventOf (CustomException _) => false
  end.

(** A [tool_execution_start] or [tool_execution_complete] frame. *)
Definition tool_frame (f : string) : Prop :=
  (exists n p, f = sse_tool_execution_start n p)
  \/ (exists n p, f = sse_tool_execution_complete n p).

(** The frames the translator can yield. *)
Definition translator_frame (f : string) : Prop :=
  f = sse_stream_start
  \/ (exists c, f = sse_stream_token c)
  \/ tool_frame f
  \/ f = sse_error "Unexpected error".

(** Every value a stretch of the translator yields is such a frame. *)
Definition yields_translator_frames (body : step psu_state psu_yield) : Prop :=
  forall st, Forall (fun y => translator_frame y.1) (body st).1.1.

(** The translator has yielded tool frames only, with the flag unset,
    and has not raised. *)
Definition quiet_yields (acc : list psu_yield) (st : psu_state) (r : option exn)
    : Prop :=
  r = None /\ stream_started st = false
  /\ Forall (fun y => tool_frame y.1 /\ y.2 = false) acc.

(** The driver has sent neither [stream_start] nor [stream_end], has
    not opened the stream and has not raised. *)
Definition quiet_out (out : list string) (st : gen_state) (r : option exn) : Prop :=
  r = None /\ g_stream_started st = false
  /\ Forall (fun f => f <> sse_stream_start /\ forall t, f <> sse_stream_end t) out.

(** ** Sample inputs *)

Definition demo_input : UserInput :=
  {| message := "weather in Paris"; thread_id := Some "thread-1" |}.

Definition demo_ids : Uuids :=
  {| uuid_run := "run-1"; uuid_thread := "thread-2" |}.

(** The weather run: the model asks for the tool, the tool answers,
    a progress event arrives, the model streams its answer, and the
    final message arrives on the "updates" channel. *)
Definition weather_events : list StreamEvent :=
  [ UpdatesEvent
      [("agent",
        UState (Some [AIMessage (ContentStr "")
                        [{| tc_name := Some "get_weather";
                            tc_args := Some (JDict [("city", JStr "Paris")]);
                            tc_id := Some (Some "call_1") |}] []]))];
    UpdatesEvent [("tools", UState (Some [ToolMessage (ContentStr "Sunny") "call_1"]))];
    CustomEventOf (CustomData "progress" (JInt 1));
    MessagesEvent (AIMessageChunk (ContentStr "It is sunny")) None;
    UpdatesEvent
      [("agent", UState (Some [AIMessage (ContentStr "It is sunny") [] []]))] ].





(** The loop [async for stream_event in agent.astream(...)] of
    [message_generator], from the locals the generator starts with: the
    frames sent, the locals at the end of the loop, and the exception
    that ended it, if any. *)
Definition driver_loop (user_input : UserInput) (ids : Uuids)
    (events : list StreamEvent) : list string * gen_state * option exn :=
  let '(_, run_id, thread_id) := _handle_input user_input ids in
  for_each (handle_stream_event run_id thread_id (message user_input))
    events initial_gen_state.



(** ** More of Python's [str] *)

Module PyStr.

Definition is_alpha (c : ascii) : bool :=
  let n := nat_of_ascii c in
  ((65 <=? n)%nat && (n <=? 90)%nat) || ((97 <=? n)%nat && (n <=? 122)%nat).

(** [str.title()], on ASCII letters: a letter that follows a letter is
    lowered, any other letter is raised. *)
Fixpoint title_from (after_letter : bool) (s : string) : string :=
  match s with
  | "" => ""
  | String c s' =>
      String (if after_letter then Str.lower c else Str.upper c)
             (title_from (is_alpha c) s')
  end.

Definition title (s : string) : string := title_from false s.

(** [len(s)]. *)
Definition len (s : string) : Z := Z.of_nat (String.length s).

(** [s * n]: the empty string when [n] is not positive. *)
Definition repeat (s : string) (n : Z) : string :=
  String.concat "" (List.repeat s (Z.to_nat n)).

End PyStr.

(** ** [ChatMessage.pretty_repr] *)

Definition type_value (t : MessageType) : string :=
  match t with
  | human => "human"
  | ai => "ai"
  | tool => "tool"
  | custom => "custom"
  end.

(** The title line of [pretty_repr]. *)
Definition pretty_title (m : ChatMessage) : string :=
  let base_title := PyStr.title (type_value (msg_type m)) +:+ " Message" in
  let padded := " " +:+ base_title +:+ " " in
  let sep_len := ((80 - PyStr.len padded) / 2)%Z in
  let sep := PyStr.repeat "=" sep_len in
  let second_sep :=
    if (PyStr.len padded mod 2 =? 0)%Z then sep else sep +:+ "=" in
  sep +:+ padded +:+ second_sep.

Definition pretty_repr (m : ChatMessage) : string :=
  pretty_title m +:+ Str.nl +:+ Str.nl +:+ msg_content m.

(** ** [process_message_chunk] and [stream] *)

(** [process_message_chunk]: the frame of a chunk, [None] when nothing
    is left of its content. *)
Definition process_message_chunk (msg_content0 : MessageContent)
    : result (option string) :=
  match remove_tool_calls msg_content0 with
  | inl e => inl e
  | inr content =>
      if content_truthy content then
        match convert_message_content_to_string content with
        | inl e => inl e
        | inr s => inr (Some (sse_stream_token (JStr s)))
        end
      else inr None
  end.

(** The values the two calls of [uuid4()] in [stream] return. *)
Record StreamUuids : Type := {
  uuid_stream_thread : string;
  uuid_stream_run : string
}.

(** [if not user_input.thread_id: user_input.thread_id = str(uuid4())]. *)
Definition with_thread_id (user_input : UserInput) (sids : StreamUuids) : UserInput :=
  match thread_id user_input with
  | Some t =>
      if Str.truthy t then user_input
      else {| message := message user_input;
              thread_id := Some (uuid_stream_thread sids) |}
  | None => {| message := message user_input;
               thread_id := Some (uuid_stream_thread sids) |}
  end.

(** [stream]: the body of the [StreamingResponse], as the frames of
    [message_generator]. *)
Definition stream (user_input : UserInput) (agent_id : string) (sids : StreamUuids)
    (formatted_date : string) (ids : Uuids) (events : list StreamEvent)
    (ending : SourceEnd) : list string * Ending :=
  let user_input := with_thread_id user_input sids in
  let user_info :=
    get_user_info "mock_token" (default "" (thread_id user_input))
      (uuid_stream_run sids) in
  message_generator user_input user_info formatted_date agent_id ids events ending.

(** ** Notions for the statements about contents *)

(** An item that [remove_tool_calls] drops. *)
Definition is_tool_use (item : ContentItem) : bool :=
  match item with
  | ItemStr _ => false
  | ItemDict d =>
      match Json.get "type" d with
      | Some t => json_is_str t "tool_use"
      | None => false
      end
  end.

(** Every character is printable ASCII. *)
Definition printable (s : string) : Prop :=
  Forall (fun c => (32 <= nat_of_ascii c <= 126)%nat) (Str.chars s).


(** A well-formed SSE frame: an [event:] line, whatever follows it,
    and an empty line at the end. *)
Definition sse_frame (f : string) : Prop :=
  exists body, f = "event: " +:+ body +:+ Str.nl +:+ Str.nl.

(** The thread identifier a request has once [stream] has filled it
    in. *)
Definition stream_thread_id (user_input : UserInput) (sids : StreamUuids) : string :=
  match thread_id user_input with
  | Some t => if Str.truthy t then t else uuid_stream_thread sids
  | None => uuid_stream_thread sids
  end.


(** The local [chat_message] of a call is bound. *)
Definition chat_message_bound (st : psu_state) : Prop := chat_message st <> None.


(** A stretch of the translator keeps the driver's copy of the opened
    flag equal to its own: what the driver makes of the pairs yielded,
    starting from the translator's flag, is the translator's flag at
    the end. *)
Definition keeps_flags_equal (body : step psu_state psu_yield) : Prop :=
  forall st,
    (forward_updates (body st).1.1 (stream_started st)).2
    = stream_started (body st).1.2.

(** What a stretch of the translator keeps about [stream_start]:
    [started0] is the flag at the start of the call and [acc] the
    pairs yielded since. *)
Definition psu_start_inv (started0 : bool) (acc : list psu_yield) (st : psu_state)
    : Prop :=
  (stream_started st = false ->
   started0 = false
   /\ count_occ string_dec (List.map fst acc) sse_stream_start = 0)
  /\ (started0 = true ->
      count_occ string_dec (List.map fst acc) sse_stream_start = 0)
  /\ count_occ string_dec (List.map fst acc) sse_stream_start <= 1.


(** One stretch of the translator either yields no [stream_start] and
    leaves a set flag set, or finds the flag unset, sets it and yields
    [stream_start] once. *)
Definition psu_step_starts (st : psu_state) (ys : list psu_yield) (st' : psu_state)
    : Prop :=
  (count_occ string_dec (List.map fst ys) sse_stream_start = 0
   /\ (stream_started st = true -> stream_started st' = true))
  \/ (stream_started st = false /\ stream_started st' = true
      /\ count_occ string_dec (List.map fst ys) sse_stream_start = 1).

Definition keeps_psu_start_inv (body : step psu_state psu_yield) : Prop :=
  forall started0 acc st,
    psu_start_inv started0 acc st ->
    psu_start_inv started0 (acc ++ (body st).1.1) (body st).1.2.


(** ** The streaming client: [utils/cli/agent_cli.py] *)

(** [pieces[0] = c + pieces[0]]: one more character in front of the
    first piece. *)
Definition push (c : ascii) (pieces : list string) : list string :=
  match pieces with
  | [] => [String c EmptyString]
  | p :: ps => String c p :: ps
  end.

(** [s.split("\n\n")]: the pieces between the occurrences of two line
    feeds, found from the left and not overlapping. *)
Fixpoint split_blank_line (s : string) : list string :=
  match s with
  | EmptyString => [EmptyString]
  | String c s' =>
      match s' with
      | String c' s'' =>
          if Ascii.eqb c Str.LF && Ascii.eqb c' Str.LF
          then EmptyString :: split_blank_line s''
          else push c (split_blank_line s')
      | EmptyString => push c (split_blank_line s')
      end
  end.

(** One iteration of [async for chunk in response.aiter_text()], as far
    as the buffer goes: [buffer += chunk], [lines = buffer.split("\n\n")],
    [buffer = lines.pop(-1)].  The result is the lines the loop
    [for line in lines] then goes through, and the new buffer. *)
Definition take_chunk (buffer chunk : string) : list string * string :=
  let buffer := buffer +:+ chunk in
  let lines := split_blank_line buffer in
  (removelast lines, List.last lines EmptyString).

(** The loop over the chunks of a response, from a given buffer: all
    the lines gone through, in order, and the buffer at the end. *)
Fixpoint take_chunks (buffer : string) (chunks : list string)
    : list string * string :=
  match chunks with
  | [] => ([], buffer)
  | chunk :: rest =>
      let '(lines, buffer) := take_chunk buffer chunk in
      let '(more, final) := take_chunks buffer rest in
      (lines ++ more, final)
  end.

(** The lines of [stream_agent_response], which starts with
    [buffer = ""]. *)
Definition stream_agent_response_lines (chunks : list string)
    : list string * string :=
  take_chunks EmptyString chunks.

(** A frame of [create_sse_data] without the empty line that ends
    it. *)
Definition frame_line (message : SSEMessage) : string :=
  "event: " +:+ sse_type message +:+
  match sse_content message with
  | JNull => EmptyString
  | content => Str.nl +:+ "data: " +:+ Json.dumps content
  end.


(** Two frames of a response, and the same text cut in three places
    that fall inside a frame and inside an end of frame. *)
Definition sample_frames : list SSEMessage :=
  [ {| sse_type := "stream_start"; sse_content := JNull |};
    {| sse_type := "stream_token"; sse_content := JDict [("token", JStr "Hi")] |} ].

Definition sample_chunks : list string :=
  let text := String.concat EmptyString (List.map create_sse_data sample_frames) in
  [ String.substring 0 10 text; String.substring 10 10 text;
    String.substring 20 21 text; String.substring 41 (String.length text - 41) text ].


(** [str.startswith], [s[n:]], [str.strip] and [s.split("\n")]. *)
Module StrOps.

Fixpoint startswith (prefix s : string) : bool :=
  match prefix, s with
  | EmptyString, _ => true
  | String a prefix', String b s' => Ascii.eqb a b && startswith prefix' s'
  | String _ _, EmptyString => false
  end.

(** [s[n:]]. *)
Fixpoint drop (n : nat) (s : string) : string :=
  match n, s with
  | O, _ => s
  | S n', String _ s' => drop n' s'
  | S _, EmptyString => EmptyString
  end.

(** [str.isspace] on one character below 256: the ASCII controls
    9 to 13 and 28 to 31, the space, NEL and the no-break space. *)
Definition is_space (c : ascii) : bool :=
  let n := nat_of_ascii c in
  ((9 <=? n)%nat && (n <=? 13)%nat) || ((28 <=? n)%nat && (n <=? 32)%nat)
  || (n =? 133)%nat || (n =? 160)%nat.

Fixpoint lstrip (s : string) : string :=
  match s with
  | EmptyString => EmptyString
  | String c s' => if is_space c then lstrip s' else s
  end.

Fixpoint rstrip (s : string) : string :=
  match s with
  | EmptyString => EmptyString
  | String c s' =>
      match rstrip s' with
      | EmptyString => if is_space c then EmptyString else String c EmptyString
      | r => String c r
      end
  end.

Definition strip (s : string) : string := rstrip (lstrip s).

Fixpoint split_lines (s : string) : list string :=
  match s with
  | EmptyString => [EmptyString]
  | String c s' =>
      if Ascii.eqb c Str.LF then EmptyString :: split_lines s'
      else push c (split_lines s')
  end.

End StrOps.

(** What the client has read of one line: [event_type], and the
    strings it has handed to [json.loads], in order. *)
Record line_fields : Type := {
event_type : option string;
loads_args : list string
}.

(** The body of [for subline in line.split("\n")], up to the call of
    [json.loads]. *)
Definition read_subline (fields : line_fields) (subline : string) : line_fields :=
  if StrOps.startswith "event: " subline then
    {| event_type := Some (StrOps.strip (StrOps.drop 7 subline));
       loads_args := loads_args fields |}
  else if StrOps.startswith "data: " subline then
    {| event_type := event_type fields;
       loads_args := loads_args fields ++ [StrOps.drop 6 subline] |}
  else fields.

(** The loop over the sublines of one line, from [event_type = None]. *)
Definition read_line (line : string) : line_fields :=
  fold_left read_subline (StrOps.split_lines line)
    {| event_type := None; loads_args := [] |}.


(** ** The client's configuration: [utils/cli/config.py] *)

Record AgentConfig : Type := {
agent_id : string;
agent_name : string;
agent_description : string
}.

Record Config : Type := {
api_url : string;
config_agents : list AgentConfig;
bearer_token : option string
}.

(** [os.environ]. *)
Abbreviation Environ := (gmap string string).

(** The truth value of [os.environ.get(name)]. *)
Definition environ_truthy (environ : Environ) (name : string) : bool :=
  match environ !! name with
  | Some value => Str.truthy value
  | None => false
  end.

(** The truth value of [config.bearer_token]. *)
Definition token_truthy (token : option string) : bool :=
  match token with
  | Some value => Str.truthy value
  | None => false
  end.

(** [Config.from_env]. *)
Definition from_env (environ : Environ) : Config :=
  {| api_url := default "http://localhost:8080" (environ !! "API_URL");
     config_agents := [];
     bearer_token := environ !! "BEARER_TOKEN" |}.

(** What reading the file gives: [open], [json.load] and the call of
    the class on the data build a configuration or raise. *)
Inductive LoadError : Type :=
| FileNotFoundError
| JSONDecodeError
| LoadTypeError
| OtherLoadError (class_name : string).

Inductive FileContent : Type :=
| Loads (config : Config)
| Fails (e : LoadError).

(** The object a name is bound to: the module-level [default_config],
    or an object built by the call. *)
Inductive ConfigRef : Type :=
| TheDefault
| Fresh (config : Config).

(** The object behind a reference, given the value of
    [default_config]. *)
Definition deref (ref : ConfigRef) (default_config : Config) : Config :=
  match ref with
  | TheDefault => default_config
  | Fresh config => config
  end.

(** [Config.from_json]: the three exceptions of the [except] clause
    give [default_config] itself; any other one leaves the function. *)
Definition from_json (file : FileContent) : LoadError + ConfigRef :=
  match file with
  | Loads config => inr (Fresh config)
  | Fails FileNotFoundError | Fails JSONDecodeError | Fails LoadTypeError =>
      inr TheDefault
  | Fails (OtherLoadError class_name) => inl (OtherLoadError class_name)
  end.

(** [config.bearer_token = bearer_token]: on [default_config] the
    assignment changes the module-level object. *)
Definition set_bearer_token (ref : ConfigRef) (token : option string)
    (default_config : Config) : ConfigRef * Config :=
  let update config :=
    {| api_url := api_url config; config_agents := config_agents config;
       bearer_token := token |} in
  match ref with
  | TheDefault => (TheDefault, update default_config)
  | Fresh config => (Fresh (update config), default_config)
  end.

(** [get_config].  [file] is [None] when [config_file.exists()] is
    false.  The result is the object returned and the value of
    [default_config] after the call. *)
Definition get_config (environ : Environ) (file : option FileContent)
    (default_config : Config) : LoadError + (ConfigRef * Config) :=
  let chosen :=
    if environ_truthy environ "API_URL" then inr (Fresh (from_env environ))
    else
      match file with
      | Some content => from_json content
      | None => inr TheDefault
      end in
  match chosen with
  | inl e => inl e
  | inr config =>
      if environ_truthy environ "BEARER_TOKEN"
         && negb (token_truthy (bearer_token (deref config default_config)))
      then inr (set_bearer_token config (environ !! "BEARER_TOKEN") default_config)
      else inr (config, default_config)
  end.

(** The module-level [default_config] as the module builds it. *)
Definition initial_default_config : Config :=
  {| api_url := "http://localhost:8080";
     config_agents :=
       [ {| agent_id := "sallyC"; agent_name := "SallyC";
            agent_description :=
              "An AI agent that can help users explore opportunities in the Reply CRM." |} ];
     bearer_token := None |}.

(** The file is missing, or reading it raises one of the exceptions
    [from_json] handles. *)
Definition falls_back (file : option FileContent) : bool :=
  match file with
  | None => true
  | Some (Fails FileNotFoundError) | Some (Fails JSONDecodeError)
  | Some (Fails LoadTypeError) => true
  | Some _ => false
  end.


(** ** Query parameters: [app/formatters.py] *)

Definition STAR : ascii := "042"%char.

(** [s.endswith(c)] for a text [c] of one character. *)
Fixpoint endswith_char (c : ascii) (s : string) : bool :=
  match s with
  | EmptyString => false
  | String a EmptyString => Ascii.eqb a c
  | String _ s' => endswith_char c s'
  end.

(** [s.replace(c, "")] for a text [c] of one character. *)
Fixpoint remove_char (c : ascii) (s : string) : string :=
  match s with
  | EmptyString => EmptyString
  | String a s' => if Ascii.eqb a c then remove_char c s' else String a (remove_char c s')
  end.

Definition format_like_param (param : option string) : option string :=
  match param with
  | None => None
  | Some param =>
      if StrOps.startswith (String STAR EmptyString) param && endswith_char STAR param
      then Some param
      else
        let param := remove_char STAR param in
        Some (String STAR EmptyString +:+ param +:+ String STAR EmptyString)
  end.

(** * Properties *)

(** ** Strings *)

Lemma chars_app (s t : string) : Str.chars (s +:+ t) = Str.chars s ++ Str.chars t.
Proof.
  induction s as [|c s IH]; [reflexivity|].
  change (String c s +:+ t) with (String c (s +:+ t)).
  unfold Str.chars in *. simpl. now rewrite IH.
Qed.

Lemma single_line_app (s t : string) :
  Str.single_line s -> Str.single_line t -> Str.single_line (s +:+ t).
Proof.
  unfold Str.single_line. rewrite chars_app. intros Hs Ht.
  apply Forall_app. now split.
Qed.

Lemma single_line_cons (c : ascii) (s : string) :
  c <> Str.LF -> Str.single_line s -> Str.single_line (String c s).
Proof. intros Hc Hs. unfold Str.single_line, Str.chars. simpl. now constructor. Qed.

Lemma single_line_empty : Str.single_line "".
Proof. constructor. Qed.

Lemma single_line_concat (sep : string) (l : list string) :
  Str.single_line sep -> Forall Str.single_line l ->
  Str.single_line (String.concat sep l).
Proof.
  intros Hsep Hl. induction Hl as [|x l Hx Hl IH]; [constructor|].
  destruct l as [|y l]; [exact Hx|].
  change (String.concat sep (x :: y :: l))
    with (x +:+ sep +:+ String.concat sep (y :: l)).
  auto using single_line_app.
Qed.

Ltac sline_literal :=
  repeat (apply single_line_cons; [discriminate|]); apply single_line_empty.

(** ** [json.dumps] *)

Lemma hex_digit_not_LF (n : nat) : Json.hex_digit n <> Str.LF.
Proof.
  unfold Json.hex_digit.
  do 16 (destruct n as [|n]; [discriminate|]).
  destruct n; discriminate.
Qed.

Lemma escape_char_single_line (c : ascii) : Str.single_line (Json.escape_char c).
Proof.
  unfold Json.escape_char.
  repeat match goal with
         | |- context [if ?b then _ else _] => destruct b eqn:?
         end;
    try (unfold Str.BACKSLASH, Str.DQUOTE; sline_literal).
  - apply single_line_cons; [|apply single_line_empty].
    intros ->. discriminate.
  - unfold Str.BACKSLASH.
    do 4 (apply single_line_cons; [discriminate|]).
    apply single_line_cons; [apply hex_digit_not_LF|].
    apply single_line_cons; [apply hex_digit_not_LF|apply single_line_empty].
Qed.

Lemma escape_single_line (s : string) : Str.single_line (Json.escape s).
Proof.
  induction s as [|c s IH]; [constructor|].
  simpl. apply single_line_app; [apply escape_char_single_line|exact IH].
Qed.

Lemma encode_str_single_line (s : string) : Str.single_line (Json.encode_str s).
Proof.
  unfold Json.encode_str.
  apply single_line_cons; [discriminate|].
  apply single_line_app; [apply escape_single_line|].
  unfold Str.DQUOTE. sline_literal.
Qed.

Lemma string_of_uint_single_line (d : Decimal.uint) :
  Str.single_line (NilZero.string_of_uint d).
Proof.
  destruct d as [|d|d|d|d|d|d|d|d|d|d]; simpl; try sline_literal;
    (apply single_line_cons; [discriminate|]);
    induction d; simpl; auto using single_line_cons, single_line_empty;
    (apply single_line_cons; [discriminate|assumption]).
Qed.

Lemma encode_int_single_line (n : Z) : Str.single_line (Json.encode_int n).
Proof.
  unfold Json.encode_int, NilZero.string_of_int.
  destruct (Z.to_int n).
  - apply string_of_uint_single_line.
  - apply single_line_cons; [discriminate|apply string_of_uint_single_line].
Qed.

Lemma dumps_single_line (v : json) : Str.single_line (Json.dumps v).
Proof.
  induction v as [|b|n|s|items IH|items IH] using json_nested_ind.
  - simpl. sline_literal.
  - destruct b; simpl; sline_literal.
  - apply encode_int_single_line.
  - apply encode_str_single_line.
  - simpl. apply single_line_app; [sline_literal|].
    apply single_line_app; [|sline_literal].
    apply single_line_concat; [sline_literal|].
    apply Forall_map. exact IH.
  - simpl. apply single_line_app; [sline_literal|].
    apply single_line_app; [|sline_literal].
    apply single_line_concat; [sline_literal|].
    apply Forall_map. eapply Forall_impl; [exact IH|].
    intros [k x] Hx. simpl in *.
    apply single_line_app; [apply encode_str_single_line|].
    apply single_line_app; [sline_literal|exact Hx].
Qed.

(** ** The SSE encoder *)

Example create_sse_data_start :
  create_sse_data {| sse_type := "stream_start"; sse_content := JNull |}
  = "event: stream_start" +:+ Str.nl +:+ Str.nl.
Proof. reflexivity. Qed.

Example create_sse_data_token :
  create_sse_data {| sse_type := "stream_token";
                     sse_content := JDict [("token", JStr "Hello world")] |}
  = "event: stream_token" +:+ Str.nl
    +:+ "data: {" +:+ String Str.DQUOTE "token" +:+ String Str.DQUOTE ": "
    +:+ String Str.DQUOTE "Hello world" +:+ String Str.DQUOTE "}" +:+ Str.nl +:+ Str.nl.
Proof. reflexivity. Qed.

Lemma append_assoc (s t u : string) : (s +:+ t) +:+ u = s +:+ (t +:+ u).
Proof.
  induction s as [|c s IH]; [reflexivity|].
  change (String c s +:+ t) with (String c (s +:+ t)).
  change (String c (s +:+ t) +:+ u) with (String c ((s +:+ t) +:+ u)).
  now rewrite IH.
Qed.

(** C8. [create_sse_data] is a total function of the event type and the
    content.  Its result is the line [event: <type>], then, when and
    only when the content is not null, the line [data: <json>] where
    [<json>] is [json.dumps] of the content, then an empty line; and
    [json.dumps] of the content holds no line feed, so the data is one
    line. *)
Theorem create_sse_data_frame (event_type : string) (content : json) :
  create_sse_data {| sse_type := event_type; sse_content := content |}
  = "event: " +:+ event_type +:+ Str.nl
    +:+ match content with
        | JNull => ""
        | _ => "data: " +:+ Json.dumps content +:+ Str.nl
        end
    +:+ Str.nl
  /\ Str.single_line (Json.dumps content).
Proof.
  split; [|apply dumps_single_line].
  unfold create_sse_data; cbv zeta; cbv beta iota delta [sse_type sse_content].
  destruct content; try reflexivity;
    now rewrite !append_assoc.
Qed.

(** ** The single-shot handler *)

(** C9. When the agent is registered and [agent.ainvoke] is cancelled,
    [invoke] raises nothing: it returns the response whose content is
    the fixed text [Generation was stopped.], with the thread id and the
    run id of the run. *)
Theorem invoke_cancelled_returns_fixed_content
    (user_input : UserInput) (agent_id : string) (ids : Uuids) (graph : string) :
  get_agent agent_id = inr graph ->
  invoke user_input agent_id ids AgentCancelled
  = inr {| resp_content := "Generation was stopped.";
           resp_thread_id := thread_id_or_fresh user_input ids;
           resp_run_id := uuid_run ids |}.
Proof.
  intros Hagent. unfold invoke. rewrite Hagent. reflexivity.
Qed.

Lemma invoke_cancelled_returns_fixed_content_witness :
  get_agent "Agent-AI" = inr "Agent_AI"
  /\ invoke {| message := "2+2"; thread_id := None |} "Agent-AI"
        {| uuid_run := "run-1"; uuid_thread := "thread-1" |} AgentCancelled
     = inr {| resp_content := "Generation was stopped.";
              resp_thread_id := "thread-1"; resp_run_id := "run-1" |}.
Proof.
  split; [reflexivity|].
  apply (invoke_cancelled_returns_fixed_content
           {| message := "2+2"; thread_id := None |} "Agent-AI"
           {| uuid_run := "run-1"; uuid_thread := "thread-1" |} "Agent_AI").
  reflexivity.
Defined.

(** ** The interrupt events *)

(** C5, at the failing input: an interrupt as the runtime delivers it,
    with its [value] and without an attribute [content].
    [process_stream_updates] reads [interrupt.content], where [invoke]
    reads [value]: [AttributeError] is raised at the first interrupt of
    the event, before any frame is yielded, whether the stream is open
    or not and whatever follows in the event.  The exception leaves
    [process_stream_updates] and the driver ends the run: the client
    gets [stream_start] and an [error] frame with the text of the
    exception, no [stream_token] frame of the interrupt, and the later
    events are not processed. *)
Theorem interrupt_of_the_runtime_raises
    (value : option json) (rest : list Interrupt) (more : list (string * Updates))
    (run_id thread_id user_input : string)
    (tool_executions0 : gmap (option string) ToolInfo) (started : bool)
    (completed_tools0 : list string)
    (request : UserInput) (user_info date : string) (ids : Uuids)
    (later : list StreamEvent) (ending : SourceEnd) :
  let interrupt := {| interrupt_value := value; interrupt_content := None |} in
  let event := ("__interrupt__", UInterrupts (interrupt :: rest)) :: more in
  let e := AttributeError "'Interrupt' object has no attribute 'content'" in
  process_stream_updates event run_id thread_id user_input
    tool_executions0 started completed_tools0
  = ([],
     {| tool_executions := tool_executions0; completed_tools := completed_tools0;
        stream_started := started; chat_message := None |},
     Some e)
  /\ message_generator request user_info date "Agent-AI" ids
       (UpdatesEvent event :: later) ending
     = ([sse_stream_start; sse_error (str_exn e)], Returned).
Proof. split; reflexivity. Qed.

(** The guard of the interrupt branch, for an object that has an
    attribute [content] (the runtime's interrupts have none): it covers
    [stream_start] only.  When the content is not empty and the stream
    has not opened, [stream_start] and the [stream_token] frame of the
    content are yielded and the flag is set; otherwise the
    [stream_token] frame of the content is yielded all the same, empty
    or not, and the flag is left as it is. *)
Lemma interrupt_with_content_attribute
    (value : option json) (content : json) (run_id thread_id user_input : string)
    (tool_executions0 : gmap (option string) ToolInfo) (started : bool)
    (completed_tools0 : list string) :
  process_stream_updates
    [("__interrupt__",
      UInterrupts [{| interrupt_value := value; interrupt_content := Some content |}])]
    run_id thread_id user_input tool_executions0 started completed_tools0
  = if negb started && Json.truthy content then
      ([(sse_stream_start, true); (sse_stream_token content, true)],
       {| tool_executions := tool_executions0; completed_tools := completed_tools0;
          stream_started := true; chat_message := None |},
       None)
    else
      ([(sse_stream_token content, started)],
       {| tool_executions := tool_executions0; completed_tools := completed_tools0;
          stream_started := started; chat_message := None |},
       None).
Proof.
  unfold process_stream_updates. simpl.
  unfold process_interrupt. simpl.
  destruct (negb started && Json.truthy content); reflexivity.
Qed.

(** ** Failures of the translation and of the event source *)

(** C1, at the failing input: the event source raises before anything
    was sent.  The [except] clause sends [stream_start] and the error
    frame but leaves the flag unset, so the run ends without
    [stream_end]. *)
Theorem stream_opened_by_except_clause_is_not_closed
    (user_input : UserInput) (user_info date : string) (ids : Uuids) (e : exn) :
  message_generator user_input user_info date "Agent-AI" ids [] (Raises e)
  = ([sse_stream_start; sse_error (str_exn e)], Returned)
  /\ last [sse_stream_start; sse_error (str_exn e)]
     <> Some (sse_stream_end (thread_id_or_fresh user_input ids)).
Proof.
  split; [reflexivity|].
  simpl. intros H. injection H as H. vm_compute in H. discriminate H.
Qed.

(** C3, at the failing input: the event source raises after one token.
    The error frame carries the text of the exception, whatever it
    is. *)
Theorem unhandled_exception_text_reaches_client (text : string) :
  message_generator demo_input "user" "date" "Agent-AI" demo_ids
    [MessagesEvent (AIMessageChunk (ContentStr "Hello")) None]
    (Raises (RuntimeException text))
  = ([sse_stream_start;
      sse_stream_token (JStr "Hello");
      sse_error text;
      sse_stream_end "thread-1"],
     Returned)
  /\ sse_error "connect failed: password=hunter2"
     = "event: error" +:+ Str.nl
       +:+ "data: " +:+ String Str.DQUOTE "connect failed: password=hunter2"
       +:+ String Str.DQUOTE Str.nl +:+ Str.nl.
Proof. split; reflexivity. Qed.

(** C4, at the failing input: the first message of the event is of a
    class that [langchain_to_chat_message] does not support.  The
    [except] clause yields [stream_start] and then reads the local
    [chat_message], which is not bound: [UnboundLocalError] leaves
    [process_stream_updates], no error frame is yielded, the messages
    that follow are not processed, and the driver ends the run. *)
Theorem first_message_failure_leaves_the_loop
    (class_name : string) (rest : list BaseMessage)
    (run_id thread_id user_input : string)
    (tool_executions0 : gmap (option string) ToolInfo)
    (completed_tools0 : list string) :
  process_stream_updates
    [("agent", UState (Some (OtherMessage class_name :: rest)))]
    run_id thread_id user_input tool_executions0 false completed_tools0
  = ([(sse_stream_start, true)],
     {| tool_executions := tool_executions0; completed_tools := completed_tools0;
        stream_started := true; chat_message := None |},
     Some (UnboundLocalError "chat_message"))
  /\ message_generator demo_input "user" "date" "Agent-AI" demo_ids
       [UpdatesEvent [("agent", UState (Some [OtherMessage "SystemMessage"]))];
        MessagesEvent (AIMessageChunk (ContentStr "Hello")) None]
       Exhausted
     = ([sse_error (str_exn (UnboundLocalError "chat_message"));
         sse_stream_end "thread-1"],
        Returned).
Proof. split; reflexivity. Qed.

(** When a message of the same call was converted before, the clause
    does what it is written for: the error frame, and the loop goes
    on. *)
Example later_message_failure_is_isolated :
  (process_stream_updates
     [("agent", UState (Some [AIMessage (ContentStr "a") [] [];
                              OtherMessage "SystemMessage";
                              AIMessage (ContentStr "b") [] []]))]
     "run-1" "thread-1" "question" ∅ false []).1.1
  = [(sse_stream_start, true);
     (sse_stream_token (JStr "a"), true);
     (sse_error "Unexpected error", true);
     (sse_stream_token (JStr "b"), true)].
Proof. reflexivity. Qed.

(** C6, at the failing input: the text of a message of the "updates"
    channel holds the words [event: tool_execution_start].  Its
    [stream_token] frame passes the substring test of the driver and is
    sent to the client. *)
Theorem token_frame_of_updates_channel_is_forwarded :
  message_generator demo_input "user" "date" "Agent-AI" demo_ids
    [UpdatesEvent
       [("agent",
         UState (Some [AIMessage (ContentStr "event: tool_execution_start") [] []]))]]
    Exhausted
  = ([sse_stream_token (JStr "event: tool_execution_start");
      sse_stream_end "thread-1"],
     Returned).
Proof. reflexivity. Qed.

(** ** The checkpointer *)




(** ** Frames *)

Arguments create_sse_data : simpl never.
Arguments sse_stream_start : simpl never.
Arguments sse_stream_token : simpl never.
Arguments sse_tool_execution_start : simpl never.
Arguments sse_tool_execution_complete : simpl never.
Arguments sse_error : simpl never.
Arguments sse_stream_end : simpl never.
Arguments forwarded : simpl never.
Arguments is_tool_frame : simpl never.

Lemma append_cons (c : ascii) (s t : string) : String c s +:+ t = String c (s +:+ t).
Proof. reflexivity. Qed.

Lemma append_inv_head (s a b : string) : s +:+ a = s +:+ b -> a = b.
Proof.
  induction s as [|c s IH]; [trivial|].
  rewrite !append_cons. intros H. injection H as H. auto.
Qed.

Lemma create_sse_data_shape (m : SSEMessage) :
  create_sse_data m
  = "event: " +:+ (sse_type m +:+ (Str.nl +:+ frame_body (sse_content m))).
Proof.
  destruct m as [t c]. unfold create_sse_data, frame_body. cbv zeta. simpl sse_type.
  simpl sse_content. destruct c; rewrite ?append_assoc; reflexivity.
Qed.

Lemma single_line_head (c : ascii) (s : string) :
  Str.single_line (String c s) -> c <> Str.LF /\ Str.single_line s.
Proof. intros H. inversion H; subst. now split. Qed.

(** A frame determines its type, when the type is one line. *)
Lemma type_line_inj (t1 t2 b1 b2 : string) :
  Str.single_line t1 -> Str.single_line t2 ->
  t1 +:+ (Str.nl +:+ b1) = t2 +:+ (Str.nl +:+ b2) ->
  t1 = t2 /\ b1 = b2.
Proof.
  revert t2. induction t1 as [|c1 t1 IH]; intros [|c2 t2] H1 H2 Heq.
  - split; [reflexivity|]. exact (append_inv_head Str.nl _ _ Heq).
  - apply single_line_head in H2 as [Hc _].
    unfold Str.nl in Heq. rewrite !append_cons in Heq.
    injection Heq as Hc' _. congruence.
  - apply single_line_head in H1 as [Hc _].
    unfold Str.nl in Heq. rewrite !append_cons in Heq.
    injection Heq as Hc' _. congruence.
  - apply single_line_head in H1 as [_ H1].
    apply single_line_head in H2 as [_ H2].
    rewrite !append_cons in Heq. injection Heq as Hc Heq.
    destruct (IH t2 H1 H2 Heq) as [-> ->]. now subst.
Qed.

Lemma frame_eq_inv (t1 t2 : string) (c1 c2 : json) :
  Str.single_line t1 -> Str.single_line t2 ->
  create_sse_data {| sse_type := t1; sse_content := c1 |}
  = create_sse_data {| sse_type := t2; sse_content := c2 |} ->
  t1 = t2 /\ frame_body c1 = frame_body c2.
Proof.
  intros H1 H2. rewrite !create_sse_data_shape. simpl sse_type. simpl sse_content.
  intros Heq. apply append_inv_head in Heq. now apply type_line_inj.
Qed.

(** The frames of two different types of the protocol differ. *)
Ltac frame_types_differ :=
  let H := fresh in
  intros H; apply frame_eq_inv in H as [H _];
  [discriminate H | sline_literal | sline_literal].







Lemma prefix_append (a x : string) : String.prefix a (a +:+ x) = true.
Proof.
  induction a as [|c a IH]; [now destruct x|].
  rewrite append_cons. simpl. destruct (ascii_dec c c); [exact IH|congruence].
Qed.

Lemma contains_unfold (needle hay : string) :
  Str.contains needle hay
  = String.prefix needle hay
    || match hay with
       | "" => false
       | String _ hay' => Str.contains needle hay'
       end.
Proof. destruct hay; reflexivity. Qed.

Lemma contains_prefix (a x : string) : Str.contains a (a +:+ x) = true.
Proof. rewrite contains_unfold, prefix_append. reflexivity. Qed.

Lemma start_is_tool_frame (n : string) (p : json) :
  is_tool_frame (sse_tool_execution_start n p) = true.
Proof.
  unfold is_tool_frame, sse_tool_execution_start.
  rewrite create_sse_data_shape. simpl sse_type. simpl sse_content.
  change ("event: " +:+ ("tool_execution_start" +:+ ?r))
    with ("event: tool_execution_start" +:+ r).
  now rewrite contains_prefix.
Qed.

Lemma complete_is_tool_frame (n : string) (p : json) :
  is_tool_frame (sse_tool_execution_complete n p) = true.
Proof.
  unfold is_tool_frame, sse_tool_execution_complete.
  rewrite create_sse_data_shape. simpl sse_type. simpl sse_content.
  change ("event: " +:+ ("tool_execution_complete" +:+ ?r))
    with ("event: tool_execution_complete" +:+ r).
  rewrite contains_prefix. apply orb_true_r.
Qed.

Lemma stream_start_is_not_tool_frame : is_tool_frame sse_stream_start = false.
Proof. reflexivity. Qed.

(** ** Loops *)

(** A property of the values yielded so far, the state and the way the
    last stretch ended, that every iteration keeps, holds at the end of
    the loop. *)
Lemma for_each_preserves {A S Y : Type} (I : list Y -> S -> option exn -> Prop)
    (body : A -> step S Y) (l : list A) :
  (forall x acc st, In x l -> I acc st None ->
     I (acc ++ (body x st).1.1) (body x st).1.2 (body x st).2) ->
  forall acc st, I acc st None ->
    I (acc ++ (for_each body l st).1.1) (for_each body l st).1.2
      (for_each body l st).2.
Proof.
  induction l as [|x l IH]; intros Hbody acc st HI.
  - simpl. now rewrite app_nil_r.
  - simpl. specialize (Hbody x acc st (or_introl eq_refl) HI) as Hx.
    destruct (body x st) as [[ys st1] r]. simpl in Hx.
    destruct r as [e|]; [exact Hx|].
    assert (Hl : forall y acc' st', In y l -> I acc' st' None ->
              I (acc' ++ (body y st').1.1) (body y st').1.2 (body y st').2)
      by (intros; apply Hbody; [now right|assumption]).
    specialize (IH Hl (acc ++ ys) st1 Hx).
    destruct (for_each body l st1) as [[ys' st2] r']. simpl in *.
    now rewrite app_assoc.
Qed.

(** ** The tool-call tracker *)


Lemma forwarded_cons (f : string) (b : bool) (ys : list psu_yield) :
  forwarded ((f, b) :: ys) = (if is_tool_frame f then [f] else []) ++ forwarded ys.
Proof. unfold forwarded. simpl. now destruct (is_tool_frame f). Qed.

Lemma forward_updates_fst (ys : list psu_yield) (started : bool) :
  (forward_updates ys started).1 = forwarded ys.
Proof.
  revert started. induction ys as [|[f b] ys IH]; intros started; [reflexivity|].
  rewrite forwarded_cons. simpl. destruct (is_tool_frame f).
  - specialize (IH started). destruct (forward_updates ys started). simpl in *.
    now rewrite IH.
  - destruct (b && negb started); apply IH.
Qed.


















Lemma custom_frame_is_not (reserved event_type : string) (data c : json) :
  Str.single_line reserved ->
  Str.single_line event_type /\ event_type <> reserved ->
  create_sse_data {| sse_type := event_type; sse_content := data |}
  <> create_sse_data {| sse_type := reserved; sse_content := c |}.
Proof.
  intros Hr [Hline Hne] Heq.
  apply frame_eq_inv in Heq as [Heq _]; [contradiction|assumption|assumption].
Qed.





(** The frames of a run of a registered agent: those of the loop, those
    of the [except] clause, and [stream_end] when the flag is set. *)
Lemma message_generator_frames (user_input : UserInput) (user_info date : string)
    (ids : Uuids) (events : list StreamEvent) (ending : SourceEnd) :
  (message_generator user_input user_info date "Agent-AI" ids events ending).1
  = (driver_loop user_input ids events).1.1
    ++ match match (driver_loop user_input ids events).2 with
             | Some e => Some e
             | None => match ending with Raises e => Some e | _ => None end
             end with
       | Some e =>
           (if g_stream_started (driver_loop user_input ids events).1.2
            then [] else [sse_stream_start])
           ++ [sse_error (str_exn e)]
       | None => []
       end
    ++ (if g_stream_started (driver_loop user_input ids events).1.2
        then [sse_stream_end (thread_id_or_fresh user_input ids)] else []).
Proof.
  unfold message_generator, driver_loop, _handle_input.
  change (get_agent "Agent-AI") with (@inr exn string "Agent_AI"). cbv iota beta zeta.
  now destruct (for_each _ events initial_gen_state) as [[out st] r].
Qed.








(** ** The [stream_start] frame *)

Lemma token_is_not_stream_start (c : json) : sse_stream_token c <> sse_stream_start.
Proof. unfold sse_stream_token, sse_stream_start. frame_types_differ. Qed.

Lemma error_is_not_stream_start (msg : string) : sse_error msg <> sse_stream_start.
Proof. unfold sse_error, sse_stream_start. frame_types_differ. Qed.

Lemma stream_end_is_not_stream_start (t : string) :
  sse_stream_end t <> sse_stream_start.
Proof. unfold sse_stream_end, sse_stream_start. frame_types_differ. Qed.

Lemma token_or_error_is_not_stream_start (g : string) :
  is_token_or_error g -> g <> sse_stream_start.
Proof.
  intros [[c ->]|[msg ->]];
    auto using token_is_not_stream_start, error_is_not_stream_start.
Qed.

Lemma forwarded_are_tool_frames (ys : list psu_yield) (f : string) :
  In f (forwarded ys) -> is_tool_frame f = true.
Proof. unfold forwarded. intros H. now apply List.filter_In in H as [_ H]. Qed.

Lemma forwarded_without_stream_start (ys : list psu_yield) :
  ~ In sse_stream_start (forwarded ys).
Proof.
  intros H. apply forwarded_are_tool_frames in H.
  now rewrite stream_start_is_not_tool_frame in H.
Qed.

Lemma forward_updates_keeps_flag (ys : list psu_yield) :
  (forward_updates ys true).2 = true.
Proof.
  induction ys as [|[f b] ys IH]; [reflexivity|].
  simpl. destruct (is_tool_frame f).
  - destruct (forward_updates ys true). exact IH.
  - rewrite andb_false_r. exact IH.
Qed.

Lemma starts_followed_app (a b : list string) :
  starts_followed a -> starts_followed b ->
  (last a = Some sse_stream_start ->
   match b with [] => True | g :: _ => is_token_or_error g end) ->
  starts_followed (a ++ b).
Proof.
  induction a as [|f a IH]; intros Ha Hb Hlast; [exact Hb|].
  destruct Ha as [Hf Ha]. simpl. split.
  - intros ->. destruct a as [|g a]; simpl.
    + destruct b; [exact I|]. now apply Hlast.
    + now apply Hf.
  - apply IH; [exact Ha|exact Hb|].
    intros Hl. apply Hlast. destruct a; [discriminate Hl|exact Hl].
Qed.

Lemma starts_followed_without (fs : list string) :
  ~ In sse_stream_start fs -> starts_followed fs.
Proof.
  induction fs as [|f fs IH]; intros Hnot; [exact I|].
  split.
  - intros ->. destruct Hnot. now left.
  - apply IH. intros H. apply Hnot. now right.
Qed.

Lemma some_eq_inv {A : Type} (x y : A) : Some x = Some y -> x = y.
Proof. intros H. now injection H. Qed.

Lemma last_in {A : Type} (l : list A) (x : A) : last l = Some x -> In x l.
Proof.
  intros H. apply last_Some in H as [l' ->]. apply in_or_app. right. now left.
Qed.

Lemma last_app_nonempty {A : Type} (a b : list A) :
  b <> [] -> last (a ++ b) = last b.
Proof.
  intros Hb. destruct b as [|x b _] using rev_ind; [contradiction|].
  now rewrite app_assoc, !last_snoc.
Qed.

Lemma start_inv_extends (out fs : list string) (st st' : gen_state) (r : option exn) :
  start_inv out st None ->
  step_shape (g_stream_started st) fs (g_stream_started st') r ->
  start_inv (out ++ fs) st' r.
Proof.
  intros (Hsf & Hno & Hcount & Hlast) Hshape.
  specialize (Hlast eq_refl).
  destruct Hshape as [[Hfs Hmono]|[(Hst & Hst' & Hr & g & Hg & ->)
                                  |(Hst & Hst' & Hr & ->)]].
  - split; [|split; [|split]].
    + apply starts_followed_app; [exact Hsf|now apply starts_followed_without|].
      intros Hl. contradiction.
    + intros Hst' Hin. apply in_app_or in Hin as [Hin|Hin]; [|contradiction].
      apply Hno; [|exact Hin].
      destruct (g_stream_started st); [|reflexivity].
      rewrite Hmono in Hst' by reflexivity. discriminate.
    + rewrite count_occ_app.
      rewrite (proj1 (count_occ_not_In string_dec fs sse_stream_start) Hfs). lia.
    + intros _ Hl. destruct fs as [|f fs].
      * rewrite app_nil_r in Hl. contradiction.
      * rewrite last_app_nonempty in Hl by discriminate.
        apply last_in in Hl. contradiction.
  - split; [|split; [|split]].
    + apply starts_followed_app; [exact Hsf| |intros Hl; contradiction].
      simpl. repeat split; auto.
    + intros E. rewrite Hst' in E. discriminate.
    + rewrite count_occ_app.
      rewrite (proj1 (count_occ_not_In string_dec out sse_stream_start) (Hno Hst)).
      simpl. destruct (string_dec sse_stream_start sse_stream_start); [|contradiction].
      destruct (string_dec g sse_stream_start) as [E|_]; [|lia].
      now apply token_or_error_is_not_stream_start in Hg.
    + intros _ Hl. rewrite last_app_nonempty in Hl by discriminate.
      simpl in Hl. apply some_eq_inv in Hl.
      now apply token_or_error_is_not_stream_start in Hg.
  - split; [|split; [|split]].
    + apply starts_followed_app; [exact Hsf| |intros Hl; contradiction].
      simpl. auto.
    + intros E. rewrite Hst' in E. discriminate.
    + rewrite count_occ_app.
      rewrite (proj1 (count_occ_not_In string_dec out sse_stream_start) (Hno Hst)).
      simpl. destruct (string_dec sse_stream_start sse_stream_start); [lia|contradiction].
    + intros E. contradiction.
Qed.

Lemma handle_stream_event_shape (run_id thread_id user_input : string)
    (stream_event : StreamEvent) (st : gen_state) :
  custom_type_avoids "stream_start" stream_event ->
  step_shape (g_stream_started st)
    (handle_stream_event run_id thread_id user_input stream_event st).1.1
    (g_stream_started
       (handle_stream_event run_id thread_id user_input stream_event st).1.2)
    (handle_stream_event run_id thread_id user_input stream_event st).2.
Proof.
  intros Hcustom.
  assert (Hnone : forall r, step_shape (g_stream_started st) [] (g_stream_started st) r)
    by (intros r; left; split; [intros []|trivial]).
  destruct stream_event as [|event|msg tags|[e|event_type data]|mode];
    unfold handle_stream_event.
  - apply Hnone.
  - destruct (process_stream_updates event run_id thread_id user_input
                (g_tool_executions st) (g_stream_started st)
                (g_completed_tools st)) as [[ys pst] r].
    pose proof (forward_updates_fst ys (g_stream_started st)) as Hfw.
    pose proof (forward_updates_keeps_flag ys) as Hflag.
    destruct (forward_updates ys (g_stream_started st)) as [out started] eqn:E.
    simpl in *. subst out. left. split.
    + apply forwarded_without_stream_start.
    + intros Hst. rewrite Hst in E. now rewrite E in Hflag.
  - destruct (existsb (String.eqb "skip_stream") (default [] tags)); [apply Hnone|].
    destruct msg as [content0|]; [|apply Hnone].
    destruct (remove_tool_calls content0) as [e|content]; [apply Hnone|].
    destruct (content_truthy content); [|apply Hnone].
    destruct content as [s|items]; simpl; destruct (g_stream_started st) eqn:Est.
    + left. split; [|trivial]. intros [H|[]].
      now apply token_is_not_stream_start in H.
    + right. left. repeat split. exists (sse_stream_token (JStr s)).
      split; [left; eauto|reflexivity].
    + left. split; [intros []|trivial].
    + right. right. repeat split. discriminate.
  - simpl. destruct (g_stream_started st) eqn:Est.
    + left. split; [|trivial]. intros [H|[]].
      now apply error_is_not_stream_start in H.
    + right. left. repeat split. exists (sse_error (str_exn e)).
      split; [right; eauto|reflexivity].
  - simpl. left. split; [|trivial]. intros [H|[]]. revert H.
    unfold sse_stream_start. apply custom_frame_is_not; [sline_literal|exact Hcustom].
  - apply Hnone.
Qed.

Lemma starts_followed_closed (l : list string) :
  starts_followed l -> last l <> Some sse_stream_start ->
  forall pre post, l = pre ++ sse_stream_start :: post ->
    exists g post', post = g :: post' /\ is_token_or_error g.
Proof.
  intros Hsf Hlast pre. revert l Hsf Hlast.
  induction pre as [|x pre IH]; intros l Hsf Hlast post ->.
  - destruct post as [|g post]; [now destruct Hlast|].
    destruct Hsf as [Hg _]. exists g, post. split; [reflexivity|now apply Hg].
  - destruct Hsf as [_ Hsf]. apply (IH _ Hsf); [|reflexivity].
    intros Hl. apply Hlast. simpl.
    destruct (pre ++ sse_stream_start :: post) eqn:E; [|exact Hl].
    now destruct pre.
Qed.

(** What the driver sends after the loop keeps the invariant. *)
Lemma start_inv_closing (out : list string) (st : gen_state) (r : option exn)
    (ending : SourceEnd) (thread : string) :
  start_inv out st r ->
  let raised :=
    match r with
    | Some e => Some e
    | None => match ending with Raises e => Some e | _ => None end
    end in
  let final :=
    out ++ match raised with
           | Some e =>
               (if g_stream_started st then [] else [sse_stream_start])
                 ++ [sse_error (str_exn e)]
           | None => []
           end
        ++ (if g_stream_started st then [sse_stream_end thread] else []) in
  starts_followed final
  /\ last final <> Some sse_stream_start
  /\ count_occ string_dec final sse_stream_start <= 1.
Proof.
  intros (Hsf & Hno & Hcount & Hlast) raised final.
  assert (Herr : forall e, is_token_or_error (sse_error (str_exn e)))
    by (intros e; right; eauto).
  assert (Hend : ~ In sse_stream_start [sse_stream_end thread]).
  { intros [H|[]]. now apply stream_end_is_not_stream_start in H. }
  subst final. destruct raised as [e|] eqn:Eraised.
  - destruct (g_stream_started st) eqn:Est.
    + simpl. split; [|split].
      * apply starts_followed_app; [exact Hsf| |intros _; apply Herr].
        apply starts_followed_without. intros [H|[H|[]]].
        -- now apply error_is_not_stream_start in H.
        -- now apply stream_end_is_not_stream_start in H.
      * rewrite last_app_nonempty by discriminate. simpl. intros H.
        apply some_eq_inv in H. now apply stream_end_is_not_stream_start in H.
      * rewrite count_occ_app. simpl.
        destruct (string_dec (sse_error (str_exn e)) sse_stream_start) as [H|_];
          [now apply error_is_not_stream_start in H|].
        destruct (string_dec (sse_stream_end thread) sse_stream_start) as [H|_];
          [now apply stream_end_is_not_stream_start in H|]. lia.
    + simpl. split; [|split].
      * apply starts_followed_app; [exact Hsf| |].
        -- simpl. repeat split; auto.
        -- intros Hl. apply last_in in Hl. now apply Hno in Hl.
      * rewrite last_app_nonempty by discriminate. simpl. intros H.
        apply some_eq_inv in H. now apply error_is_not_stream_start in H.
      * rewrite count_occ_app.
        rewrite (proj1 (count_occ_not_In string_dec out sse_stream_start)
                   (Hno eq_refl)).
        simpl. destruct (string_dec sse_stream_start sse_stream_start);
          [|contradiction].
        destruct (string_dec (sse_error (str_exn e)) sse_stream_start) as [H|_];
          [now apply error_is_not_stream_start in H|lia].
  - assert (Hr : r = None) by (destruct r; [discriminate Eraised|reflexivity]).
    specialize (Hlast Hr). simpl.
    destruct (g_stream_started st).
    + split; [|split].
      * apply starts_followed_app; [exact Hsf| |intros Hl; contradiction].
        now apply starts_followed_without.
      * rewrite last_app_nonempty by discriminate. simpl. intros H.
        apply some_eq_inv in H. now apply stream_end_is_not_stream_start in H.
      * rewrite count_occ_app.
        rewrite (proj1 (count_occ_not_In string_dec _ sse_stream_start) Hend). lia.
    + rewrite app_nil_r. auto.
Qed.

Lemma updates_event_sends_no_stream_start (event : list (string * Updates))
    (run_id thread_id user_input : string) (st : gen_state) :
  ~ In sse_stream_start
      (handle_stream_event run_id thread_id user_input (UpdatesEvent event) st).1.1.
Proof.
  unfold handle_stream_event.
  destruct (process_stream_updates event run_id thread_id user_input
              (g_tool_executions st) (g_stream_started st)
              (g_completed_tools st)) as [[ys pst] r].
  pose proof (forward_updates_fst ys (g_stream_started st)) as Hfw.
  destruct (forward_updates ys (g_stream_started st)) as [out started].
  simpl in *. subst out. apply forwarded_without_stream_start.
Qed.

(** ** Runs without text *)

Lemma tool_frame_is_tool_frame (f : string) : tool_frame f -> is_tool_frame f = true.
Proof.
  intros [(n & p & ->)|(n & p & ->)];
    auto using start_is_tool_frame, complete_is_tool_frame.
Qed.

Lemma tool_frame_is_not_start_or_end (f : string) :
  tool_frame f -> f <> sse_stream_start /\ forall t, f <> sse_stream_end t.
Proof.
  intros [(n & p & ->)|(n & p & ->)]; (split; [|intros t]);
    unfold sse_tool_execution_start, sse_tool_execution_complete,
      sse_stream_start, sse_stream_end;
    frame_types_differ.
Qed.

Lemma quiet_yields_nil_step (acc : list psu_yield) (st st' : psu_state) :
  stream_started st' = stream_started st ->
  quiet_yields acc st None -> quiet_yields (acc ++ []) st' None.
Proof.
  intros Hsame (_ & Hst & Hacc). rewrite app_nil_r.
  split; [reflexivity|]. split; [congruence|exact Hacc].
Qed.

Lemma quiet_record_tool_call (tool_call : ToolCall) (acc : list psu_yield)
    (st : psu_state) :
  well_formed_call tool_call = true ->
  quiet_yields acc st None ->
  quiet_yields (acc ++ (record_tool_call tool_call st).1.1)
    (record_tool_call tool_call st).1.2 (record_tool_call tool_call st).2.
Proof.
  unfold well_formed_call, record_tool_call. intros Hwf (_ & Hst & Hacc).
  destruct (tc_name tool_call) as [name|], (tc_args tool_call) as [args|],
    (tc_id tool_call) as [id|]; try discriminate Hwf.
  simpl. split; [reflexivity|]. split; [exact Hst|].
  apply Forall_app. split; [exact Hacc|].
  apply List.Forall_cons; [|apply List.Forall_nil].
  split; [left; eauto|exact Hst].
Qed.

Lemma quiet_record_tool_calls (tool_calls : list ToolCall) (acc : list psu_yield)
    (st : psu_state) :
  forallb well_formed_call tool_calls = true ->
  quiet_yields acc st None ->
  quiet_yields (acc ++ (for_each record_tool_call tool_calls st).1.1)
    (for_each record_tool_call tool_calls st).1.2
    (for_each record_tool_call tool_calls st).2.
Proof.
  intros Hwf. apply for_each_preserves.
  intros tc acc' st' Hin. apply quiet_record_tool_call.
  rewrite forallb_forall in Hwf. now apply Hwf.
Qed.

Lemma quiet_process_message (run_id thread_id user_input : string)
    (m : BaseMessage) (acc : list psu_yield) (st : psu_state) :
  silent_message user_input m = true ->
  quiet_yields acc st None ->
  quiet_yields (acc ++ (process_message run_id thread_id user_input m st).1.1)
    (process_message run_id thread_id user_input m st).1.2
    (process_message run_id thread_id user_input m st).2.
Proof.
  intros Hsilent Hq.
  destruct m as [[s|items]|[s|items] tool_calls md|[s|items] id|class_name];
    try discriminate Hsilent; simpl in Hsilent;
    unfold process_message, translate_message.
  - simpl. rewrite Hsilent. simpl. (apply (quiet_yields_nil_step acc st); [reflexivity|exact Hq]).
  - destruct tool_calls as [|tc tcs].
    + apply negb_true_iff in Hsilent.
      destruct md; simpl; rewrite Hsilent; simpl; (apply (quiet_yields_nil_step acc st); [reflexivity|exact Hq]).
    + assert (Hcalls :
        forall st0, stream_started st0 = stream_started st ->
          quiet_yields (acc ++ (for_each record_tool_call (tc :: tcs) st0).1.1)
            (for_each record_tool_call (tc :: tcs) st0).1.2
            (for_each record_tool_call (tc :: tcs) st0).2).
      { intros st0 Hst0. apply quiet_record_tool_calls; [exact Hsilent|].
        destruct Hq as (_ & Hst & Hacc). split; [reflexivity|].
        split; [congruence|exact Hacc]. }
      destruct md; cbn -[for_each];
        match goal with
        | |- context [for_each record_tool_call (tc :: tcs) ?st0] =>
            specialize (Hcalls st0 eq_refl);
            destruct (for_each record_tool_call (tc :: tcs) st0) as [[ys st1] r]
        end;
        simpl in Hcalls; destruct Hcalls as (-> & Hst1 & Hys); simpl in *;
        (split; [reflexivity|]); (split; assumption).
  - simpl. destruct Hq as (_ & Hst & Hacc).
    destruct (tool_executions st !! Some id) as [info|]; simpl.
    + split; [reflexivity|]. split; [exact Hst|].
      apply Forall_app. split; [exact Hacc|].
      apply List.Forall_cons; [|apply List.Forall_nil].
      split; [right; eauto|exact Hst].
    + rewrite app_nil_r. split; [reflexivity|]. split; assumption.
Qed.

Lemma quiet_process_node (run_id thread_id user_input : string)
    (item : string * Updates) (acc : list psu_yield) (st : psu_state) :
  silent_node user_input item = true ->
  quiet_yields acc st None ->
  quiet_yields (acc ++ (process_node run_id thread_id user_input item st).1.1)
    (process_node run_id thread_id user_input item st).1.2
    (process_node run_id thread_id user_input item st).2.
Proof.
  destruct item as [node updates]. unfold silent_node, process_node. simpl.
  intros Hsilent Hq. apply andb_true_iff in Hsilent as [Hnode Hmsgs].
  apply negb_true_iff in Hnode. rewrite Hnode.
  destruct updates as [interrupts|messages|]; try discriminate Hmsgs.
  apply for_each_preserves; [|exact Hq].
  intros m acc' st' Hin. apply quiet_process_message.
  rewrite forallb_forall in Hmsgs. now apply Hmsgs.
Qed.

Lemma forward_quiet (ys : list psu_yield) :
  Forall (fun y => tool_frame y.1 /\ y.2 = false) ys ->
  forward_updates ys false = (List.map fst ys, false).
Proof.
  induction 1 as [|[f b] ys [Hf _] _ IH]; [reflexivity|].
  simpl in *. rewrite (tool_frame_is_tool_frame f Hf), IH. reflexivity.
Qed.

Lemma quiet_handle_stream_event (run_id thread_id user_input : string)
    (stream_event : StreamEvent) (acc : list string) (st : gen_state) :
  silent_event user_input stream_event = true ->
  custom_type_avoids "stream_start" stream_event ->
  custom_type_avoids "stream_end" stream_event ->
  quiet_out acc st None ->
  quiet_out
    (acc ++ (handle_stream_event run_id thread_id user_input stream_event st).1.1)
    (handle_stream_event run_id thread_id user_input stream_event st).1.2
    (handle_stream_event run_id thread_id user_input stream_event st).2.
Proof.
  intros Hsilent Hstart Hend Hq.
  assert (Hnil : quiet_out (acc ++ []) st None) by now rewrite app_nil_r.
  destruct Hq as (_ & Hst & Hacc).
  destruct stream_event as [|event|msg tags|[e|event_type data]|mode];
    unfold handle_stream_event; unfold silent_event in Hsilent;
    try discriminate Hsilent.
  - exact Hnil.
  - assert (Hpsu : quiet_yields
              ([] ++ (process_stream_updates event run_id thread_id user_input
                        (g_tool_executions st) (g_stream_started st)
                        (g_completed_tools st)).1.1)
              (process_stream_updates event run_id thread_id user_input
                 (g_tool_executions st) (g_stream_started st)
                 (g_completed_tools st)).1.2
              (process_stream_updates event run_id thread_id user_input
                 (g_tool_executions st) (g_stream_started st)
                 (g_completed_tools st)).2).
    { unfold process_stream_updates. apply for_each_preserves.
      - intros item acc' st' Hin. apply quiet_process_node.
        rewrite forallb_forall in Hsilent. now apply Hsilent.
      - split; [reflexivity|]. split; [exact Hst|constructor]. }
    destruct (process_stream_updates event run_id thread_id user_input
                (g_tool_executions st) (g_stream_started st)
                (g_completed_tools st)) as [[ys pst] r].
    simpl in Hpsu. destruct Hpsu as (-> & _ & Hys).
    rewrite Hst, (forward_quiet ys Hys). simpl.
    split; [reflexivity|]. split; [reflexivity|].
    apply Forall_app. split; [exact Hacc|].
    apply List.Forall_map. eapply Forall_impl; [exact Hys|].
    intros y [Hy _]. now apply tool_frame_is_not_start_or_end.
  - destruct (existsb (String.eqb "skip_stream") (default [] tags)); [exact Hnil|].
    simpl in Hsilent. destruct msg as [[s|items]|];
      [|discriminate Hsilent|exact Hnil].
    apply negb_true_iff in Hsilent. simpl. rewrite Hsilent. exact Hnil.
  - simpl. split; [reflexivity|]. split; [exact Hst|].
    apply Forall_app. split; [exact Hacc|].
    apply List.Forall_cons; [|apply List.Forall_nil]. split.
    + unfold sse_stream_start. apply custom_frame_is_not; [sline_literal|exact Hstart].
    + intros t. unfold sse_stream_end.
      apply custom_frame_is_not; [sline_literal|exact Hend].
  - exact Hnil.
Qed.

(** ** The protocol of [stream_start] *)

(** C2, as the claim states it, fails.  In the weather run the first
    frame sent is [tool_execution_start]: no [stream_start] precedes
    it, and [stream_start] comes after the two tool frames, right
    before the first token. *)
Lemma tool_start_is_sent_before_stream_start :
  (message_generator demo_input "user" "date" "Agent-AI" demo_ids
     weather_events Exhausted).1
  = [sse_tool_execution_start "get_weather" (JDict [("city", JStr "Paris")]);
     sse_tool_execution_complete "get_weather" (JDict [("city", JStr "Paris")]);
     create_sse_data {| sse_type := "progress"; sse_content := JInt 1 |};
     sse_stream_start;
     sse_stream_token (JStr "It is sunny");
     sse_stream_end "thread-1"]
  /\ head (message_generator demo_input "user" "date" "Agent-AI" demo_ids
             weather_events Exhausted).1
     = Some (sse_tool_execution_start "get_weather" (JDict [("city", JStr "Paris")]))
  /\ head (message_generator demo_input "user" "date" "Agent-AI" demo_ids
             weather_events Exhausted).1
     <> Some sse_stream_start.
Proof.
  split; [vm_compute; reflexivity|]. split; [vm_compute; reflexivity|].
  intros H. apply some_eq_inv in H. revert H.
  apply tool_frame_is_not_start_or_end. left. eauto.
Qed.

(** What every run keeps about [stream_start], when its custom events
    declare neither the type [stream_start] nor the type [stream_end]:
    it is sent at most once; it is followed at once by a [stream_token]
    frame or an [error] frame; no event of the "updates" channel makes
    the driver send it; and a run of events without text, whose source
    does not raise, sends neither [stream_start] nor [stream_end]. *)
Lemma stream_start_safety
    (user_input : UserInput) (user_info date agent_id : string) (ids : Uuids)
    (events : list StreamEvent) (ending : SourceEnd) :
  Forall (custom_type_avoids "stream_start") events ->
  Forall (custom_type_avoids "stream_end") events ->
  let out :=
    (message_generator user_input user_info date agent_id ids events ending).1 in
  count_occ string_dec out sse_stream_start <= 1
  /\ (forall pre post,
        out = pre ++ sse_stream_start :: post ->
        exists g post', post = g :: post' /\ is_token_or_error g)
  /\ (forall event run_id thread question st,
        ~ In sse_stream_start
            (handle_stream_event run_id thread question (UpdatesEvent event) st).1.1)
  /\ (Forall (fun ev => silent_event (message user_input) ev = true) events ->
      (forall e, ending <> Raises e) ->
      ~ In sse_stream_start out /\ forall t, ~ In (sse_stream_end t) out).
Proof.
  intros Hstart Hend out. subst out.
  cut (count_occ string_dec
         (message_generator user_input user_info date agent_id ids events ending).1
         sse_stream_start <= 1
       /\ (forall pre post,
             (message_generator user_input user_info date agent_id ids events
                ending).1 = pre ++ sse_stream_start :: post ->
             exists g post', post = g :: post' /\ is_token_or_error g)
       /\ (Forall (fun ev => silent_event (message user_input) ev = true) events ->
           (forall e, ending <> Raises e) ->
           ~ In sse_stream_start
               (message_generator user_input user_info date agent_id ids events
                  ending).1
           /\ forall t,
               ~ In (sse_stream_end t)
                   (message_generator user_input user_info date agent_id ids
                      events ending).1)).
  { intros (H1 & H2 & H3). split; [exact H1|]. split; [exact H2|].
    split; [|exact H3]. intros event run_id thread question st.
    apply updates_event_sends_no_stream_start. }
  unfold message_generator.
  destruct (get_agent agent_id) as [e|graph].
  { simpl. split; [lia|]. split.
    - intros [|x pre] post H; discriminate H.
    - intros _ _. split; [intros []|intros t []]. }
  destruct (_handle_input user_input ids) as [[input run_id] thread].
  pose proof (for_each_preserves start_inv
                (handle_stream_event run_id thread (message user_input)) events)
    as Hloop.
  assert (Hquiet :
    Forall (fun ev => silent_event (message user_input) ev = true) events ->
    quiet_out
      ([] ++ (for_each (handle_stream_event run_id thread (message user_input))
                events initial_gen_state).1.1)
      (for_each (handle_stream_event run_id thread (message user_input))
         events initial_gen_state).1.2
      (for_each (handle_stream_event run_id thread (message user_input))
         events initial_gen_state).2).
  { intros Hsilent. apply for_each_preserves.
    - intros ev acc st' Hin. rewrite List.Forall_forall in Hstart, Hend, Hsilent.
      apply quiet_handle_stream_event; auto.
    - split; [reflexivity|]. split; [reflexivity|constructor]. }
  specialize (Hloop
    (fun ev acc st Hin Hacc =>
       start_inv_extends acc _ st _ _ Hacc
         (handle_stream_event_shape run_id thread (message user_input) ev st
            (proj1 (List.Forall_forall _ _) Hstart ev Hin)))
    [] initial_gen_state).
  destruct (for_each (handle_stream_event run_id thread (message user_input))
              events initial_gen_state) as [[fs st] r].
  simpl in Hloop, Hquiet.
  assert (Hinit : start_inv [] initial_gen_state None).
  { split; [exact I|]. split; [intros _ []|]. split; [simpl; lia|discriminate]. }
  specialize (Hloop Hinit).
  destruct (start_inv_closing fs st r ending thread Hloop) as (Hsf & Hlast & Hcount).
  cbv zeta in Hsf, Hlast, Hcount. cbn [fst].
  split; [exact Hcount|]. split; [now apply starts_followed_closed|].
  intros Hsilent Hending.
  destruct (Hquiet Hsilent) as (-> & Hst & Hfs). rewrite Hst.
  destruct ending as [|e|]; [|now destruct (Hending e)|];
    rewrite !app_nil_r; rewrite List.Forall_forall in Hfs;
    (split; [intros Hin|intros t Hin]); apply Hfs in Hin as [H1 H2];
    solve [now apply H1 | now apply (H2 t)].
Qed.

Lemma for_each_app {A S Y : Type} (body : A -> step S Y) (l1 l2 : list A) (st : S) :
  (for_each body l1 st).2 = None ->
  for_each body (l1 ++ l2) st
  = ((for_each body l1 st).1.1 ++ (for_each body l2 (for_each body l1 st).1.2).1.1,
     (for_each body l2 (for_each body l1 st).1.2).1.2,
     (for_each body l2 (for_each body l1 st).1.2).2).
Proof.
  revert st. induction l1 as [|y l1 IH]; intros st Hnone.
  - cbn [app for_each fst snd]. now destruct (for_each body l2 st) as [[ys st1] r].
  - cbn in Hnone |- *. destruct (body y st) as [[ys st1] r].
    destruct r as [e|]; [discriminate Hnone|].
    specialize (IH st1). destruct (for_each body l1 st1) as [[ys' st2] r'].
    cbn in Hnone |- *. subst r'. rewrite (IH eq_refl). cbn.
    now rewrite app_assoc.
Qed.

Lemma tool_frame_is_not_token (f : string) :
  tool_frame f -> forall c, f <> sse_stream_token c.
Proof.
  intros [(n & p & ->)|(n & p & ->)] c;
    unfold sse_tool_execution_start, sse_tool_execution_complete, sse_stream_token;
    frame_types_differ.
Qed.

(** Events without text, from a closed stream: the translator yields
    tool frames only, leaves the flag unset and does not raise. *)
Lemma silent_updates_are_quiet (event : list (string * Updates))
    (run_id thread_id user_input : string)
    (tool_executions0 : gmap (option string) ToolInfo)
    (completed_tools0 : list string) :
  forallb (silent_node user_input) event = true ->
  quiet_yields
    (process_stream_updates event run_id thread_id user_input
       tool_executions0 false completed_tools0).1.1
    (process_stream_updates event run_id thread_id user_input
       tool_executions0 false completed_tools0).1.2
    (process_stream_updates event run_id thread_id user_input
       tool_executions0 false completed_tools0).2.
Proof.
  intros Hsilent. unfold process_stream_updates.
  apply (for_each_preserves quiet_yields
           (process_node run_id thread_id user_input) event) with (acc := []).
  - intros item acc' st' Hin. apply quiet_process_node.
    rewrite forallb_forall in Hsilent. now apply Hsilent.
  - split; [reflexivity|]. split; [reflexivity|constructor].
Qed.

Lemma silent_event_sends_no_token (run_id thread_id user_input : string)
    (stream_event : StreamEvent) (st : gen_state) :
  silent_event user_input stream_event = true ->
  custom_type_avoids "stream_token" stream_event ->
  g_stream_started st = false ->
  Forall (fun f => forall c, f <> sse_stream_token c)
    (handle_stream_event run_id thread_id user_input stream_event st).1.1.
Proof.
  intros Hsilent Htoken Hst.
  destruct stream_event as [|event|msg tags|[e|event_type data]|mode];
    unfold handle_stream_event; unfold silent_event in Hsilent;
    try discriminate Hsilent; try apply List.Forall_nil.
  - rewrite Hst.
    pose proof (silent_updates_are_quiet event run_id thread_id user_input
                  (g_tool_executions st) (g_completed_tools st) Hsilent) as Hq.
    destruct (process_stream_updates event run_id thread_id user_input
                (g_tool_executions st) false (g_completed_tools st))
      as [[ys pst] r].
    cbn [fst snd] in Hq. destruct Hq as (_ & _ & Hys).
    rewrite (forward_quiet ys Hys). cbn [fst snd].
    apply List.Forall_map. eapply Forall_impl; [exact Hys|].
    intros y [Hy _]. now apply tool_frame_is_not_token.
  - destruct (existsb (String.eqb "skip_stream") (default [] tags));
      [apply List.Forall_nil|].
    simpl in Hsilent. destruct msg as [[s|items]|];
      [|discriminate Hsilent|apply List.Forall_nil].
    apply negb_true_iff in Hsilent. simpl. rewrite Hsilent. apply List.Forall_nil.
  - cbn [fst snd]. apply List.Forall_cons; [|apply List.Forall_nil].
    intros c. unfold sse_stream_token.
    apply custom_frame_is_not; [sline_literal|exact Htoken].
Qed.

(** The loop over events without text: nothing but tool frames and
    custom frames has been sent, the stream is not open, and nothing
    was raised. *)
Lemma quiet_driver_loop (user_input : UserInput) (ids : Uuids)
    (quiet : list StreamEvent) :
  Forall (fun ev => silent_event (message user_input) ev = true) quiet ->
  Forall (custom_type_avoids "stream_start") quiet ->
  Forall (custom_type_avoids "stream_end") quiet ->
  Forall (custom_type_avoids "stream_token") quiet ->
  quiet_out (driver_loop user_input ids quiet).1.1
    (driver_loop user_input ids quiet).1.2 (driver_loop user_input ids quiet).2
  /\ Forall (fun f => forall c, f <> sse_stream_token c)
       (driver_loop user_input ids quiet).1.1.
Proof.
  intros Hsilent Hstart Hend Htoken. unfold driver_loop, _handle_input.
  cbv zeta beta iota.
  apply (for_each_preserves
           (fun acc st r =>
              quiet_out acc st r
              /\ Forall (fun f => forall c, f <> sse_stream_token c) acc)
           (handle_stream_event (uuid_run ids) (thread_id_or_fresh user_input ids)
              (message user_input)) quiet) with (acc := []).
  - intros ev acc st Hin [Hq Hacc].
    rewrite List.Forall_forall in Hsilent, Hstart, Hend, Htoken.
    split; [apply quiet_handle_stream_event; auto|].
    apply Forall_app. split; [exact Hacc|].
    apply silent_event_sends_no_token; auto. now destruct Hq as (_ & Hst & _).
  - split; [|constructor]. split; [reflexivity|]. split; [reflexivity|constructor].
Qed.

(** The first token delta with text, on a closed stream: [stream_start]
    and the [stream_token] frame of the text, and the stream is
    open. *)
Lemma first_token_opens_the_stream (run_id thread_id user_input s : string)
    (tags : option (list string)) (st : gen_state) :
  g_stream_started st = false -> Str.truthy s = true ->
  existsb (String.eqb "skip_stream") (default [] tags) = false ->
  handle_stream_event run_id thread_id user_input
    (MessagesEvent (AIMessageChunk (ContentStr s)) tags) st
  = ([sse_stream_start; sse_stream_token (JStr s)],
     {| g_tool_executions := g_tool_executions st;
        g_completed_tools := g_completed_tools st;
        g_stream_started := true;
        complete_message := complete_message st +:+ s |},
     None).
Proof.
  intros Hst Hs Hskip. unfold handle_stream_event. rewrite Hskip.
  cbn [remove_tool_calls content_truthy]. now rewrite Hs, Hst.
Qed.

Lemma count_occ_zero_not_in (l : list string) (x : string) :
  count_occ string_dec l x = 0 -> ~ In x l.
Proof. intros H. now apply (count_occ_not_In string_dec). Qed.

(** C2, amended.  In a run whose custom events declare neither the
    type [stream_start] nor the type [stream_end]: [stream_start] is
    sent at most once, and every [stream_start] sent is followed at
    once by a [stream_token] frame or an [error] frame.  Tool frames do
    not open the stream.  While the events are without text (tool
    calls and tool results, skipped or empty token deltas, custom
    events that are not errors and do not declare the type
    [stream_token]), the frames sent hold no [stream_start], no
    [stream_token] and no [stream_end]; when the first token delta with
    text then arrives, [stream_start] is sent, exactly once in the
    run, right after the frames of the events before and right before
    the [stream_token] frame of that text, the first of the run.  And
    when every event of the run is without text and the event source
    does not raise, neither [stream_start] nor [stream_end] is sent. *)
Theorem stream_start_discipline
    (user_input : UserInput) (user_info date : string) (ids : Uuids)
    (events : list StreamEvent) (ending : SourceEnd) :
  Forall (custom_type_avoids "stream_start") events ->
  Forall (custom_type_avoids "stream_end") events ->
  let run evs e :=
    (message_generator user_input user_info date "Agent-AI" ids evs e).1 in
  count_occ string_dec (run events ending) sse_stream_start <= 1
  /\ (forall pre post,
        run events ending = pre ++ sse_stream_start :: post ->
        exists g post', post = g :: post' /\ is_token_or_error g)
  /\ (forall quiet s tags later,
        events = quiet ++ MessagesEvent (AIMessageChunk (ContentStr s)) tags :: later ->
        Forall (fun ev => silent_event (message user_input) ev = true) quiet ->
        Forall (custom_type_avoids "stream_token") quiet ->
        Str.truthy s = true ->
        existsb (String.eqb "skip_stream") (default [] tags) = false ->
        exists post,
          run events ending
          = run quiet Exhausted
            ++ sse_stream_start :: sse_stream_token (JStr s) :: post
          /\ ~ In sse_stream_start (run quiet Exhausted)
          /\ (forall c, ~ In (sse_stream_token c) (run quiet Exhausted))
          /\ (forall t, ~ In (sse_stream_end t) (run quiet Exhausted))
          /\ ~ In sse_stream_start post
          /\ count_occ string_dec (run events ending) sse_stream_start = 1)
  /\ (Forall (fun ev => silent_event (message user_input) ev = true) events ->
      (forall e, ending <> Raises e) ->
      ~ In sse_stream_start (run events ending)
      /\ forall t, ~ In (sse_stream_end t) (run events ending)).
Proof.
  intros Hstart Hend run.
  destruct (stream_start_safety user_input user_info date "Agent-AI" ids events
              ending Hstart Hend) as (Hcount & Hfollowed & _ & Hsilent).
  split; [exact Hcount|]. split; [exact Hfollowed|]. split; [|exact Hsilent].
  intros quiet s tags later -> Hquiet Htoken Hs Hskip.
  apply Forall_app in Hstart as [Hstart_q _]. apply Forall_app in Hend as [Hend_q _].
  destruct (quiet_driver_loop user_input ids quiet Hquiet Hstart_q Hend_q Htoken)
    as [(Hnone & Hflag & Hout) Hnotoken].
  assert (Hrun_quiet : run quiet Exhausted = (driver_loop user_input ids quiet).1.1).
  { unfold run. rewrite message_generator_frames, Hnone, Hflag.
    cbn [app]. now rewrite app_nil_r. }
  assert (Hloop :
    (driver_loop user_input ids
       (quiet ++ MessagesEvent (AIMessageChunk (ContentStr s)) tags :: later)).1.1
    = (driver_loop user_input ids quiet).1.1
      ++ sse_stream_start :: sse_stream_token (JStr s)
      :: (for_each (handle_stream_event (uuid_run ids)
                      (thread_id_or_fresh user_input ids) (message user_input))
            later
            {| g_tool_executions :=
                 g_tool_executions (driver_loop user_input ids quiet).1.2;
               g_completed_tools :=
                 g_completed_tools (driver_loop user_input ids quiet).1.2;
               g_stream_started := true;
               complete_message :=
                 complete_message (driver_loop user_input ids quiet).1.2 +:+ s |}).1.1).
  { unfold driver_loop, _handle_input in *. cbv zeta beta iota in *.
    rewrite (for_each_app _ quiet _ initial_gen_state Hnone). cbn [fst snd].
    f_equal. cbn [for_each].
    rewrite (first_token_opens_the_stream _ _ _ _ _ _ Hflag Hs Hskip).
    destruct (for_each _ later _) as [[ys st2] r]. reflexivity. }
  unfold run in *. rewrite Hrun_quiet.
  rewrite message_generator_frames in Hcount |- *. rewrite Hloop in Hcount |- *.
  rewrite <- app_assoc in Hcount |- *. cbn [app] in Hcount |- *.
  eexists. split; [reflexivity|].
  rewrite List.Forall_forall in Hout, Hnotoken.
  split; [intros Hin; now apply (proj1 (Hout _ Hin))|].
  split; [intros c Hin; now apply (Hnotoken _ Hin c)|].
  split; [intros t Hin; now apply (proj2 (Hout _ Hin) t)|].
  rewrite count_occ_app in Hcount |- *.
  rewrite (count_occ_cons_eq string_dec _ (eq_refl sse_stream_start)) in Hcount |- *.
  rewrite (count_occ_cons_neq string_dec _ (token_is_not_stream_start (JStr s)))
    in Hcount |- *.
  split; [apply count_occ_zero_not_in; lia|lia].
Qed.

Lemma stream_start_discipline_witness :
  Forall (custom_type_avoids "stream_start") weather_events
  /\ Forall (custom_type_avoids "stream_end") weather_events
  /\ exists post,
       (message_generator demo_input "user" "date" "Agent-AI" demo_ids
          weather_events Exhausted).1
       = (message_generator demo_input "user" "date" "Agent-AI" demo_ids
            (take 3 weather_events) Exhausted).1
         ++ sse_stream_start :: sse_stream_token (JStr "It is sunny") :: post.
Proof.
  assert (H1 : Forall (custom_type_avoids "stream_start") weather_events).
  { unfold weather_events.
    repeat (apply List.Forall_cons); try apply List.Forall_nil; simpl; try exact I.
    split; [sline_literal|discriminate]. }
  assert (H2 : Forall (custom_type_avoids "stream_end") weather_events).
  { unfold weather_events.
    repeat (apply List.Forall_cons); try apply List.Forall_nil; simpl; try exact I.
    split; [sline_literal|discriminate]. }
  assert (H3 : Forall (custom_type_avoids "stream_token") (take 3 weather_events)).
  { unfold weather_events. cbn [take].
    repeat (apply List.Forall_cons); try apply List.Forall_nil; simpl; try exact I.
    split; [sline_literal|discriminate]. }
  assert (H4 : Forall (fun ev => silent_event (message demo_input) ev = true)
                 (take 3 weather_events)).
  { unfold weather_events. cbn [take].
    repeat (apply List.Forall_cons); try apply List.Forall_nil; reflexivity. }
  split; [exact H1|]. split; [exact H2|].
  destruct (proj1 (proj2 (proj2 (stream_start_discipline demo_input "user" "date"
                                   demo_ids weather_events Exhausted H1 H2)))
              (take 3 weather_events) "It is sunny" None
              [UpdatesEvent
                 [("agent", UState (Some [AIMessage (ContentStr "It is sunny") [] []]))]]
              eq_refl H4 H3 eq_refl eq_refl) as (post & Heq & _).
  exists post. exact Heq.
Defined.

(** ** The [stream_end] frame *)

Lemma kinds_for_each {A : Type} (body : A -> step psu_state psu_yield) (l : list A) :
  (forall x, yields_translator_frames (body x)) ->
  yields_translator_frames (for_each body l).
Proof.
  intros Hbody st.
  apply (for_each_preserves
           (fun acc _ _ => Forall (fun y => translator_frame y.1) acc) body l)
    with (acc := []) (st := st); [|constructor].
  intros x acc st' _ Hacc. apply Forall_app. split; [exact Hacc|apply Hbody].
Qed.

Lemma kind_stream_start : translator_frame sse_stream_start.
Proof. now left. Qed.

Lemma kind_stream_token (c : json) : translator_frame (sse_stream_token c).
Proof. right. left. now exists c. Qed.

Lemma kind_tool_start (n : string) (p : json) :
  translator_frame (sse_tool_execution_start n p).
Proof. right. right. left. left. now exists n, p. Qed.

Lemma kind_tool_complete (n : string) (p : json) :
  translator_frame (sse_tool_execution_complete n p).
Proof. right. right. left. right. now exists n, p. Qed.

Lemma kind_error : translator_frame (sse_error "Unexpected error").
Proof. now do 3 right. Qed.

Ltac kind_of_frame :=
  lazymatch goal with
  | |- translator_frame sse_stream_start => exact kind_stream_start
  | |- translator_frame (sse_stream_token _) => apply kind_stream_token
  | |- translator_frame (sse_tool_execution_start _ _) => apply kind_tool_start
  | |- translator_frame (sse_tool_execution_complete _ _) => apply kind_tool_complete
  | |- translator_frame (sse_error _) => exact kind_error
  end.

Ltac kinds_by_cases :=
  repeat (apply List.Forall_cons; [cbn [fst]; kind_of_frame|]);
  apply List.Forall_nil.

Lemma kinds_record_tool_call (tool_call : ToolCall) :
  yields_translator_frames (record_tool_call tool_call).
Proof.
  intros st. unfold record_tool_call.
  destruct (tc_name tool_call), (tc_args tool_call), (tc_id tool_call);
    simpl; kinds_by_cases.
Qed.

Lemma kinds_process_interrupt (interrupt : Interrupt) :
  yields_translator_frames (process_interrupt interrupt).
Proof.
  intros st. unfold process_interrupt.
  destruct (interrupt_content interrupt) as [content|]; [|constructor].
  destruct (negb (stream_started st) && Json.truthy content); simpl; kinds_by_cases.
Qed.

Lemma kinds_process_message (run_id thread_id user_input : string)
    (m : BaseMessage) :
  yields_translator_frames (process_message run_id thread_id user_input m).
Proof.
  intros st. unfold process_message.
  assert (Htry : Forall (fun y => translator_frame y.1)
                   (translate_message run_id thread_id user_input m st).1.1).
  { unfold translate_message.
    destruct (langchain_to_chat_message m) as [e|cm]; [constructor|].
    set (cm' := set_run_thread cm run_id thread_id).
    destruct (is_human (msg_type cm') && String.eqb (msg_content cm') user_input);
      [constructor|].
    destruct (msg_tool_calls cm') as [|tc tcs].
    - destruct (is_tool (msg_type cm')).
      + simpl. destruct (tool_executions st !! msg_tool_call_id cm);
          simpl; kinds_by_cases.
      + destruct (Str.truthy (msg_content cm')); [|constructor].
        destruct (negb (stream_started (bind_chat_message cm' st)));
          simpl; kinds_by_cases.
    - apply (kinds_for_each record_tool_call (tc :: tcs) kinds_record_tool_call). }
  destruct (translate_message run_id thread_id user_input m st) as [[ys st1] r].
  simpl in Htry. destruct r as [e|]; [|exact Htry].
  unfold message_error_handler.
  destruct (chat_message (set_started st1)) as [cm|]; simpl;
    destruct (stream_started st1); simpl;
    repeat (apply Forall_app; split); try exact Htry; kinds_by_cases.
Qed.

Lemma kinds_process_node (run_id thread_id user_input : string)
    (item : string * Updates) :
  yields_translator_frames (process_node run_id thread_id user_input item).
Proof.
  intros st. destruct item as [node updates]. unfold process_node.
  destruct (String.eqb node "__interrupt__").
  - destruct updates as [interrupts|[messages|]|]; try constructor.
    apply (kinds_for_each process_interrupt interrupts kinds_process_interrupt).
  - destruct updates as [interrupts|messages|]; try constructor.
    apply (kinds_for_each (process_message run_id thread_id user_input)
             (default [] messages)
             (kinds_process_message run_id thread_id user_input)).
Qed.

(** Whatever the event, [process_stream_updates] yields [stream_start],
    [stream_token], tool frames and the fixed [error] frame only. *)
Lemma process_stream_updates_kinds (event : list (string * Updates))
    (run_id thread_id user_input : string)
    (pending : gmap (option string) ToolInfo) (started : bool)
    (completed : list string) :
  Forall (fun y => translator_frame y.1)
    (process_stream_updates event run_id thread_id user_input
       pending started completed).1.1.
Proof.
  unfold process_stream_updates.
  apply (kinds_for_each (process_node run_id thread_id user_input) event
           (kinds_process_node run_id thread_id user_input)).
Qed.

Lemma stream_start_is_not_stream_end (t : string) : sse_stream_start <> sse_stream_end t.
Proof. unfold sse_stream_start, sse_stream_end. frame_types_differ. Qed.

Lemma token_is_not_stream_end (c : json) (t : string) :
  sse_stream_token c <> sse_stream_end t.
Proof. unfold sse_stream_token, sse_stream_end. frame_types_differ. Qed.

Lemma error_is_not_stream_end (msg t : string) : sse_error msg <> sse_stream_end t.
Proof. unfold sse_error, sse_stream_end. frame_types_differ. Qed.

Lemma translator_frame_is_not_stream_end (f t : string) :
  translator_frame f -> f <> sse_stream_end t.
Proof.
  intros [->|[[c ->]|[H| ->]]];
    auto using stream_start_is_not_stream_end, token_is_not_stream_end,
      error_is_not_stream_end.
  now apply tool_frame_is_not_start_or_end.
Qed.

Lemma handle_stream_event_without_stream_end (run_id thread_id user_input : string)
    (stream_event : StreamEvent) (st : gen_state) :
  custom_type_avoids "stream_end" stream_event ->
  Forall (fun f => forall t, f <> sse_stream_end t)
    (handle_stream_event run_id thread_id user_input stream_event st).1.1.
Proof.
  intros Hcustom.
  destruct stream_event as [|event|msg tags|[e|event_type data]|mode];
    unfold handle_stream_event; try constructor.
  - pose proof (process_stream_updates_kinds event run_id thread_id user_input
                  (g_tool_executions st) (g_stream_started st)
                  (g_completed_tools st)) as Hkinds.
    destruct (process_stream_updates event run_id thread_id user_input
                (g_tool_executions st) (g_stream_started st)
                (g_completed_tools st)) as [[ys pst] r].
    pose proof (forward_updates_fst ys (g_stream_started st)) as Hfw.
    destruct (forward_updates ys (g_stream_started st)) as [out started].
    simpl in *. subst out. apply List.Forall_forall. intros f Hin t.
    unfold forwarded in Hin. apply List.filter_In in Hin as [Hin _].
    apply List.in_map_iff in Hin as (y & <- & Hy).
    rewrite List.Forall_forall in Hkinds.
    apply translator_frame_is_not_stream_end. now apply Hkinds.
  - destruct (existsb (String.eqb "skip_stream") (default [] tags)); [constructor|].
    destruct msg as [content0|]; [|constructor].
    destruct (remove_tool_calls content0) as [e|content]; [constructor|].
    destruct (content_truthy content); [|constructor].
    destruct content as [s|items]; simpl; destruct (g_stream_started st); simpl;
      repeat (apply List.Forall_cons); try apply List.Forall_nil;
      auto using stream_start_is_not_stream_end, token_is_not_stream_end.
  - simpl. destruct (g_stream_started st); simpl;
      repeat (apply List.Forall_cons); try apply List.Forall_nil;
      auto using stream_start_is_not_stream_end, error_is_not_stream_end.
  - intros t. unfold sse_stream_end.
    apply custom_frame_is_not; [sline_literal|exact Hcustom].
  - simpl. constructor.
Qed.

Lemma count_occ_singleton (x : string) : count_occ string_dec [x] x = 1.
Proof. simpl. destruct (string_dec x x); [reflexivity|contradiction]. Qed.

(** The part of C1 that holds.  In a run whose custom events do not
    declare the type [stream_end]: when the flag is set at the end of
    the loop, [stream_end] with the thread id is the last frame sent
    and is sent once; when it is not set, no [stream_end] is sent. *)
Lemma stream_end_follows_flag
    (user_input : UserInput) (user_info date agent_id graph : string) (ids : Uuids)
    (events : list StreamEvent) (ending : SourceEnd) :
  get_agent agent_id = inr graph ->
  Forall (custom_type_avoids "stream_end") events ->
  let thread := thread_id_or_fresh user_input ids in
  let st :=
    (for_each (handle_stream_event (uuid_run ids) thread (message user_input))
       events initial_gen_state).1.2 in
  let out :=
    (message_generator user_input user_info date agent_id ids events ending).1 in
  (g_stream_started st = true ->
   last out = Some (sse_stream_end thread)
   /\ count_occ string_dec out (sse_stream_end thread) = 1)
  /\ (g_stream_started st = false -> forall t, ~ In (sse_stream_end t) out).
Proof.
  intros Hagent Hcustom thread st out. subst st out.
  unfold message_generator. rewrite Hagent. unfold _handle_input. fold thread.
  assert (Hloop : Forall (fun f => forall t, f <> sse_stream_end t)
            (for_each (handle_stream_event (uuid_run ids) thread (message user_input))
               events initial_gen_state).1.1).
  { apply (for_each_preserves
             (fun acc _ _ => Forall (fun f => forall t, f <> sse_stream_end t) acc)
             (handle_stream_event (uuid_run ids) thread (message user_input)) events)
      with (acc := []) (st := initial_gen_state); [|constructor].
    intros ev acc st Hin Hacc. apply Forall_app. split; [exact Hacc|].
    apply handle_stream_event_without_stream_end.
    rewrite List.Forall_forall in Hcustom. now apply Hcustom. }
  destruct (for_each (handle_stream_event (uuid_run ids) thread (message user_input))
              events initial_gen_state) as [[fs st] r].
  simpl in Hloop. cbn [fst snd].
  set (raised := match r with
                 | Some e => Some e
                 | None => match ending with Raises e => Some e | _ => None end
                 end).
  assert (Hbody : Forall (fun f => forall t, f <> sse_stream_end t)
            (fs ++ match raised with
                   | Some e =>
                       (if g_stream_started st then [] else [sse_stream_start])
                         ++ [sse_error (str_exn e)]
                   | None => []
                   end)).
  { apply Forall_app. split; [exact Hloop|].
    destruct raised as [e|]; [|constructor].
    destruct (g_stream_started st); simpl;
      repeat (apply List.Forall_cons); try apply List.Forall_nil;
      auto using stream_start_is_not_stream_end, error_is_not_stream_end. }
  rewrite app_assoc. split; intros Hst; rewrite Hst in Hbody |- *.
  - split; [apply last_snoc|].
    rewrite count_occ_app, count_occ_singleton.
    rewrite (proj1 (count_occ_not_In string_dec _ (sse_stream_end thread)));
      [reflexivity|].
    intros Hin. rewrite List.Forall_forall in Hbody.
    now apply (Hbody _ Hin thread).
  - rewrite app_nil_r. intros t Hin. rewrite List.Forall_forall in Hbody.
    now apply (Hbody _ Hin t).
Qed.

(** * More properties of the code *)

(** ** [remove_tool_calls] and [convert_message_content_to_string] *)

Lemma remove_tool_use_filter (items kept : list ContentItem) :
  remove_tool_use items = inr kept ->
  kept = List.filter (fun item => negb (is_tool_use item)) items.
Proof.
  revert kept. induction items as [|[s|d] items IH]; intros kept H; simpl in *.
  - now injection H as <-.
  - destruct (remove_tool_use items) as [e|kept']; [discriminate H|].
    injection H as <-. now rewrite (IH kept' eq_refl).
  - destruct (Json.get "type" d) as [t|]; [|discriminate H].
    destruct (remove_tool_use items) as [e|kept']; [discriminate H|].
    destruct (json_is_str t "tool_use"); injection H as <-; simpl;
      now rewrite (IH kept' eq_refl).
Qed.

Lemma remove_tool_use_fixed (items : list ContentItem) :
  Forall (fun item => match item with
                      | ItemStr _ => True
                      | ItemDict d => Json.get "type" d <> None
                      end) items ->
  remove_tool_use (List.filter (fun item => negb (is_tool_use item)) items)
  = inr (List.filter (fun item => negb (is_tool_use item)) items).
Proof.
  induction 1 as [|[s|d] items Hd _ IH]; simpl; [reflexivity| |].
  - now rewrite IH.
  - destruct (Json.get "type" d) as [t|] eqn:Et; [|contradiction].
    destruct (json_is_str t "tool_use") eqn:Eu; simpl; [exact IH|].
    now rewrite Et, IH, Eu.
Qed.

Lemma remove_tool_use_typed (items kept : list ContentItem) :
  remove_tool_use items = inr kept ->
  Forall (fun item => match item with
                      | ItemStr _ => True
                      | ItemDict d => Json.get "type" d <> None
                      end) items.
Proof.
  revert kept. induction items as [|[s|d] items IH]; intros kept H; simpl in *.
  - constructor.
  - destruct (remove_tool_use items) as [e|kept']; [discriminate H|].
    constructor; [exact I|]. now apply (IH kept').
  - destruct (Json.get "type" d) as [t|] eqn:Et; [|discriminate H].
    destruct (remove_tool_use items) as [e|kept']; [discriminate H|].
    constructor; [simpl; now rewrite Et|]. now apply (IH kept').
Qed.

(** X1. When [remove_tool_calls] returns, a list content has become the
    list of its items that are not [tool_use] dicts, in their order,
    and removing again changes nothing. *)
Theorem remove_tool_calls_keeps_the_rest (items kept : list ContentItem) :
  remove_tool_calls (ContentList items) = inr (ContentList kept) ->
  kept = List.filter (fun item => negb (is_tool_use item)) items
  /\ remove_tool_calls (ContentList kept) = inr (ContentList kept).
Proof.
  unfold remove_tool_calls. intros H.
  destruct (remove_tool_use items) as [e|kept'] eqn:E; [discriminate H|].
  injection H as ->.
  pose proof (remove_tool_use_filter _ _ E) as ->.
  split; [reflexivity|].
  now rewrite (remove_tool_use_fixed items (remove_tool_use_typed _ _ E)).
Qed.

Lemma remove_tool_calls_keeps_the_rest_witness :
  remove_tool_calls
    (ContentList [ItemStr "a";
                  ItemDict [("type", JStr "tool_use"); ("name", JStr "Add")];
                  ItemDict [("type", JStr "text"); ("text", JStr "b")]])
  = inr (ContentList [ItemStr "a";
                      ItemDict [("type", JStr "text"); ("text", JStr "b")]])
  /\ remove_tool_calls
       (ContentList [ItemStr "a";
                     ItemDict [("type", JStr "text"); ("text", JStr "b")]])
     = inr (ContentList [ItemStr "a";
                         ItemDict [("type", JStr "text"); ("text", JStr "b")]]).
Proof.
  split; [reflexivity|].
  exact (proj2 (remove_tool_calls_keeps_the_rest
                  [ItemStr "a";
                   ItemDict [("type", JStr "tool_use"); ("name", JStr "Add")];
                   ItemDict [("type", JStr "text"); ("text", JStr "b")]]
                  [ItemStr "a";
                   ItemDict [("type", JStr "text"); ("text", JStr "b")]]
                  eq_refl)).
Defined.

(** X2. [remove_tool_calls] raises exactly when an item of a list
    content is a dict without the key ["type"], and what it raises is
    [KeyError('type')]; a [str] content is returned as it is. *)
Theorem remove_tool_calls_raises_on_untyped_dict (content : MessageContent) :
  match content with
  | ContentStr s => remove_tool_calls content = inr (ContentStr s)
  | ContentList items =>
      match remove_tool_calls content with
      | inl e =>
          e = KeyError "type"
          /\ exists d, In (ItemDict d) items /\ Json.get "type" d = None
      | inr _ =>
          forall d, In (ItemDict d) items -> Json.get "type" d <> None
      end
  end.
Proof.
  destruct content as [s|items]; [reflexivity|]. unfold remove_tool_calls.
  induction items as [|[s|d] items IH]; simpl.
  - intros d [].
  - destruct (remove_tool_use items) as [e|kept].
    + destruct IH as [-> (d & Hd & Hnone)]. split; [reflexivity|].
      exists d. split; [now right|exact Hnone].
    + intros d [H|H]; [discriminate H|now apply IH].
  - destruct (Json.get "type" d) as [t|] eqn:Et.
    + destruct (remove_tool_use items) as [e|kept].
      * destruct IH as [-> (d' & Hd & Hnone)]. split; [reflexivity|].
        exists d'. split; [now right|exact Hnone].
      * assert (Hrest : forall d', In (ItemDict d') items -> Json.get "type" d' <> None)
          by exact IH.
        destruct (json_is_str t "tool_use");
          (intros d' [H|H]; [injection H as <-; now rewrite Et|now apply Hrest]).
    + split; [reflexivity|]. exists d. split; [now left|exact Et].
Qed.

Lemma json_is_str_eq (t : json) (s : string) : json_is_str t s = true -> t = JStr s.
Proof.
  destruct t; try discriminate. simpl. intros H.
  apply String.eqb_eq in H. now subst.
Qed.

Lemma collect_text_skips_tool_use (items : list ContentItem) :
  collect_text (List.filter (fun item => negb (is_tool_use item)) items)
  = collect_text items.
Proof.
  induction items as [|[s|d] items IH]; simpl; [reflexivity|now rewrite IH|].
  destruct (Json.get "type" d) as [t|] eqn:Et; simpl.
  - destruct (json_is_str t "tool_use") eqn:Eu; simpl.
    + apply json_is_str_eq in Eu. subst t. simpl. exact IH.
    + rewrite Et. now rewrite IH.
  - rewrite Et. exact IH.
Qed.

(** X3. The text of a content does not depend on its [tool_use] items:
    when [remove_tool_calls] returns, converting what it returns gives
    what converting the content itself gives. *)
Theorem convert_ignores_tool_use (content content' : MessageContent) :
  remove_tool_calls content = inr content' ->
  convert_message_content_to_string content'
  = convert_message_content_to_string content.
Proof.
  destruct content as [s|items]; simpl.
  - now intros [= <-].
  - destruct (remove_tool_use items) as [e|kept] eqn:E; [discriminate|].
    intros [= <-]. simpl.
    rewrite (remove_tool_use_filter _ _ E). now rewrite collect_text_skips_tool_use.
Qed.

Lemma convert_ignores_tool_use_witness :
  remove_tool_calls
    (ContentList [ItemDict [("type", JStr "text"); ("text", JStr "2+2 is ")];
                  ItemDict [("type", JStr "tool_use"); ("name", JStr "Add")];
                  ItemStr "4"])
  = inr (ContentList [ItemDict [("type", JStr "text"); ("text", JStr "2+2 is ")];
                      ItemStr "4"])
  /\ convert_message_content_to_string
       (ContentList [ItemDict [("type", JStr "text"); ("text", JStr "2+2 is ")];
                     ItemStr "4"])
     = convert_message_content_to_string
         (ContentList [ItemDict [("type", JStr "text"); ("text", JStr "2+2 is ")];
                       ItemDict [("type", JStr "tool_use"); ("name", JStr "Add")];
                       ItemStr "4"]).
Proof.
  split; [reflexivity|].
  apply (convert_ignores_tool_use
           (ContentList [ItemDict [("type", JStr "text"); ("text", JStr "2+2 is ")];
                         ItemDict [("type", JStr "tool_use"); ("name", JStr "Add")];
                         ItemStr "4"])).
  reflexivity.
Defined.

Lemma collect_text_app (l1 l2 : list ContentItem) :
  collect_text (l1 ++ l2) = collect_text l1 ++ collect_text l2.
Proof.
  induction l1 as [|[s|d] l1 IH]; simpl; [reflexivity|now rewrite IH|].
  destruct (Json.get "type" d) as [t|]; [|exact IH].
  destruct (json_is_str t "text"); [simpl; now rewrite IH|exact IH].
Qed.

Lemma join_text_index (text : list json) (s : string) (i : nat) :
  join_text i text = inr s -> forall k, join_text k text = inr s.
Proof.
  revert s i. induction text as [|v text IH]; intros s i H k; simpl in *; [exact H|].
  destruct v; try discriminate H.
  destruct (join_text (S i) text) as [e|rest] eqn:E; [discriminate H|].
  now rewrite (IH rest (S i) E (S k)).
Qed.

Lemma join_text_app (text1 text2 : list json) (s1 s2 : string) (i j : nat) :
  join_text i text1 = inr s1 -> join_text j text2 = inr s2 ->
  forall k, join_text k (text1 ++ text2) = inr (s1 +:+ s2).
Proof.
  revert s1 i. induction text1 as [|v text1 IH]; intros s1 i H1 H2 k; simpl in *.
  - injection H1 as <-. exact (join_text_index _ _ _ H2 k).
  - destruct v; try discriminate H1.
    destruct (join_text (S i) text1) as [e|rest] eqn:E; [discriminate H1|].
    injection H1 as <-. rewrite (IH rest (S i) E H2 (S k)).
    now rewrite append_assoc.
Qed.

(** X4. The text of a list content is put together item by item: when
    two lists of items convert, their concatenation converts to the
    concatenation of the two texts. *)
Theorem convert_of_concatenation (items1 items2 : list ContentItem) (s1 s2 : string) :
  convert_message_content_to_string (ContentList items1) = inr s1 ->
  convert_message_content_to_string (ContentList items2) = inr s2 ->
  convert_message_content_to_string (ContentList (items1 ++ items2))
  = inr (s1 +:+ s2).
Proof.
  simpl. intros H1 H2. rewrite collect_text_app.
  exact (join_text_app _ _ _ _ _ _ H1 H2 0).
Qed.

Lemma convert_of_concatenation_witness :
  convert_message_content_to_string
    (ContentList ([ItemStr "It is "]
                  ++ [ItemDict [("type", JStr "text"); ("text", JStr "sunny")];
                      ItemDict [("type", JStr "image")]]))
  = inr ("It is " +:+ "sunny").
Proof.
  apply (convert_of_concatenation
           [ItemStr "It is "]
           [ItemDict [("type", JStr "text"); ("text", JStr "sunny")];
            ItemDict [("type", JStr "image")]]);
    reflexivity.
Defined.

Lemma convert_after_remove (content content' : MessageContent) :
  remove_tool_calls content = inr content' ->
  convert_message_content_to_string content'
  = convert_message_content_to_string content.
Proof.
  destruct content as [s|items]; simpl.
  - now intros [= <-].
  - destruct (remove_tool_use items) as [e|kept] eqn:E; [discriminate|].
    intros [= <-]. simpl.
    rewrite (remove_tool_use_filter _ _ E). now rewrite collect_text_skips_tool_use.
Qed.

(** ** [langchain_to_chat_message] *)

(** X5. Whatever goes wrong in [langchain_to_chat_message], what it
    raises is a [MessageConversionError]: with the name of the class
    for a class it does not support, and with the text of the inner
    exception when the content does not convert. *)
Theorem langchain_to_chat_message_raises_conversion_errors (m : BaseMessage) :
  match langchain_to_chat_message m with
  | inr _ => True
  | inl e =>
      match m with
      | OtherMessage class_name =>
          e = MessageConversionError ("Unsupported message type: " +:+ class_name)
      | HumanMessage content | AIMessage content _ _ | ToolMessage content _ =>
          exists inner,
            convert_message_content_to_string content = inl inner
            /\ e = MessageConversionError
                     ("Failed to convert message: " +:+ str_exn inner)
      end
  end.
Proof.
  assert (Hjoin : forall text i e, join_text i text = inl e ->
                    is_MessageConversionError e = false).
  { induction text as [|v text IH]; intros i e H; simpl in H; [discriminate H|].
    destruct v; try (injection H as <-; reflexivity).
    destruct (join_text (S i) text) as [e'|rest] eqn:E; [|discriminate H].
    injection H as <-. exact (IH _ _ E). }
  assert (Hconv : forall content e,
            convert_message_content_to_string content = inl e ->
            is_MessageConversionError e = false).
  { intros [s|items] e H; simpl in H; [discriminate H|exact (Hjoin _ _ _ H)]. }
  unfold langchain_to_chat_message, langchain_to_chat_message_body.
  destruct m as [content|content tool_calls md|content id|class_name];
    try reflexivity;
    destruct (convert_message_content_to_string content) as [inner|s] eqn:E;
    try exact I;
    rewrite (Hconv _ _ E); exists inner; split; reflexivity.
Qed.

(** X6. When [langchain_to_chat_message] returns, the role is the one
    of the class, the content is the text of the message's content, an
    [AIMessage] keeps its tool calls and its response metadata, a
    [ToolMessage] keeps its call identifier, and the thread and run
    identifiers are not set. *)
Theorem langchain_to_chat_message_keeps_the_message (m : BaseMessage) :
  match langchain_to_chat_message m with
  | inl _ => True
  | inr cm =>
      msg_thread_id cm = None /\ msg_run_id cm = None
      /\ match m with
         | HumanMessage content =>
             msg_type cm = human
             /\ convert_message_content_to_string content = inr (msg_content cm)
             /\ msg_tool_calls cm = [] /\ msg_tool_call_id cm = None
         | AIMessage content tool_calls md =>
             msg_type cm = ai
             /\ convert_message_content_to_string content = inr (msg_content cm)
             /\ msg_tool_calls cm = tool_calls /\ msg_tool_call_id cm = None
             /\ msg_response_metadata cm = md
         | ToolMessage content id =>
             msg_type cm = tool
             /\ convert_message_content_to_string content = inr (msg_content cm)
             /\ msg_tool_calls cm = [] /\ msg_tool_call_id cm = Some id
         | OtherMessage _ => False
         end
  end.
Proof.
  unfold langchain_to_chat_message, langchain_to_chat_message_body.
  destruct m as [content|content tool_calls md|content id|class_name];
    try exact I;
    destruct (convert_message_content_to_string content) as [inner|s] eqn:E;
    try (destruct (is_MessageConversionError inner); exact I).
  - simpl. repeat split; reflexivity.
  - destruct tool_calls, md; simpl; repeat split; reflexivity.
  - simpl. repeat split; reflexivity.
Qed.

(** ** [ChatMessage.pretty_repr] *)

(** X7. The title line of [pretty_repr] is 80 characters long for every
    role, and the content follows it after one empty line. *)
Theorem pretty_repr_title_is_80_wide (m : ChatMessage) :
  String.length (pretty_title m) = 80
  /\ pretty_repr m = pretty_title m +:+ Str.nl +:+ Str.nl +:+ msg_content m.
Proof.
  split; [|reflexivity].
  unfold pretty_title. destruct (msg_type m); reflexivity.
Qed.

Example pretty_title_human :
  pretty_title (mkChatMessage human "hi" None)
  = "================================ Human Message =================================".
Proof. reflexivity. Qed.

(** ** [invoke] *)

(** X8. Whatever [agent.ainvoke] does, [invoke] either returns a
    response with the thread and run identifiers of the run, or raises
    an [AgentError] whose message is one of three fixed texts (the
    third with the response type): the text of an exception of the
    agent never reaches the client. *)
Theorem invoke_outcomes (user_input : UserInput) (agent_id : string) (ids : Uuids)
    (outcome : AgentOutcome) :
  match invoke user_input agent_id ids outcome with
  | inr resp =>
      resp_thread_id resp = thread_id_or_fresh user_input ids
      /\ resp_run_id resp = uuid_run ids
  | inl err =>
      (err = unexpected_error /\ err_status_code err = 500)
      \/ (err = AgentExecutionError "No response received from agent"
          /\ err_status_code err = 400)
      \/ (exists ty, err = AgentExecutionError ("Unexpected response type: " +:+ ty)
                     /\ err_status_code err = 400)
  end.
Proof.
  unfold invoke. destruct (get_agent agent_id) as [e|graph]; [now left|].
  simpl. destruct outcome as [response_events|e|]; [|now left|now split].
  unfold invoke_output. destruct (last response_events) as [ev|].
  - destruct (String.eqb (response_type ev) "values").
    + destruct (response_messages ev) as [messages|]; [|now left].
      destruct (last messages) as [m|]; [|now left].
      destruct (langchain_to_chat_message m); [now left|now split].
    + destruct (String.eqb (response_type ev) "updates"),
        (response_interrupt ev) as [u|];
        try (right; right; eexists; split; reflexivity).
      destruct (first_interrupt_value u) as [e|v]; [now left|].
      destruct (content_of_json v) as [e|c]; [now left|].
      destruct (langchain_to_chat_message (AIMessage c [] [])); [now left|now split].
  - right. left. now split.
Qed.

(** X9. [invoke] looks at the last element of what [agent.ainvoke]
    returns and at nothing before it, and, when that element is a
    "values" state, at the last message of the state only. *)
Theorem invoke_uses_the_last_event_only
    (user_input : UserInput) (agent_id : string) (ids : Uuids)
    (earlier : list InvokeEvent) (ev : InvokeEvent)
    (messages : list BaseMessage) (m : BaseMessage) (interrupt : option Updates) :
  invoke user_input agent_id ids (AgentReturns (earlier ++ [ev]))
  = invoke user_input agent_id ids (AgentReturns [ev])
  /\ invoke user_input agent_id ids
       (AgentReturns [ {| response_type := "values";
                          response_messages := Some (messages ++ [m]);
                          response_interrupt := interrupt |} ])
     = invoke user_input agent_id ids
         (AgentReturns [ {| response_type := "values";
                            response_messages := Some [m];
                            response_interrupt := interrupt |} ]).
Proof.
  unfold invoke, invoke_output.
  destruct (get_agent agent_id) as [e|graph]; [now split|].
  simpl. rewrite !last_snoc. split; reflexivity.
Qed.

(** ** [process_message_chunk] *)

(** X10. [process_message_chunk] returns no frame exactly when nothing
    is left of the content once the tool calls are removed (an empty
    text or an empty list); the frame it returns otherwise is the
    [stream_token] frame of the text of the content, to which the
    [tool_use] items contribute nothing; and what it raises comes from
    the removal or from the conversion. *)
Theorem process_message_chunk_frame (content : MessageContent) :
  (process_message_chunk content = inr None
   <-> (remove_tool_calls content = inr (ContentStr "")
        \/ remove_tool_calls content = inr (ContentList [])))
  /\ match process_message_chunk content with
     | inr (Some frame) =>
         exists s,
           convert_message_content_to_string content = inr s
           /\ frame = sse_stream_token (JStr s)
     | inr None => True
     | inl e =>
         remove_tool_calls content = inl e
         \/ convert_message_content_to_string content = inl e
     end.
Proof.
  unfold process_message_chunk. split.
  - split.
    + destruct (remove_tool_calls content) as [e|content']; [discriminate|].
      destruct (content_truthy content') eqn:Et.
      * destruct (convert_message_content_to_string content'); discriminate.
      * intros _. destruct content' as [[|c s]|[|item items]];
          try discriminate Et; [now left|now right].
    + intros [-> | ->]; reflexivity.
  - destruct (remove_tool_calls content) as [e|content'] eqn:E; [now left|].
    pose proof (convert_after_remove _ _ E) as Hconv.
    destruct (content_truthy content'); [|exact I].
    destruct (convert_message_content_to_string content') as [e|s].
    + now right.
    + exists s. now split.
Qed.

(** ** The data line *)

Lemma printable_app (s t : string) : printable s -> printable t -> printable (s +:+ t).
Proof.
  unfold printable. rewrite chars_app. intros Hs Ht. apply Forall_app. now split.
Qed.

Lemma printable_cons (c : ascii) (s : string) :
  (32 <= nat_of_ascii c <= 126)%nat -> printable s -> printable (String c s).
Proof. intros Hc Hs. unfold printable, Str.chars. simpl. now constructor. Qed.

Lemma printable_empty : printable "".
Proof. constructor. Qed.

Lemma printable_concat (sep : string) (l : list string) :
  printable sep -> Forall printable l -> printable (String.concat sep l).
Proof.
  intros Hsep Hl. induction Hl as [|x l Hx Hl IH]; [constructor|].
  destruct l as [|y l]; [exact Hx|].
  change (String.concat sep (x :: y :: l))
    with (x +:+ sep +:+ String.concat sep (y :: l)).
  auto using printable_app.
Qed.

Ltac printable_literal :=
  repeat (apply printable_cons; [vm_compute; lia|]); apply printable_empty.

Lemma hex_digit_printable (n : nat) : (32 <= nat_of_ascii (Json.hex_digit n) <= 126)%nat.
Proof.
  unfold Json.hex_digit.
  do 16 (destruct n as [|n]; [vm_compute; lia|]).
  destruct n; vm_compute; lia.
Qed.

Lemma escape_char_printable (c : ascii) : printable (Json.escape_char c).
Proof.
  unfold Json.escape_char.
  repeat match goal with
         | |- context [if ?b then _ else _] => destruct b eqn:?
         end;
    try (unfold Str.BACKSLASH, Str.DQUOTE; printable_literal).
  - apply printable_cons; [|apply printable_empty].
    match goal with
    | H : _ && _ = true |- _ => apply andb_true_iff in H as [H1 H2]
    end.
    apply Nat.leb_le in H1, H2. lia.
  - unfold Str.BACKSLASH.
    do 4 (apply printable_cons; [vm_compute; lia|]).
    apply printable_cons; [apply hex_digit_printable|].
    apply printable_cons; [apply hex_digit_printable|apply printable_empty].
Qed.

Lemma escape_printable (s : string) : printable (Json.escape s).
Proof.
  induction s as [|c s IH]; [constructor|].
  simpl. apply printable_app; [apply escape_char_printable|exact IH].
Qed.

Lemma encode_str_printable (s : string) : printable (Json.encode_str s).
Proof.
  unfold Json.encode_str.
  apply printable_cons; [vm_compute; lia|].
  apply printable_app; [apply escape_printable|].
  unfold Str.DQUOTE. printable_literal.
Qed.

Lemma string_of_uint_printable (d : Decimal.uint) :
  printable (NilZero.string_of_uint d).
Proof.
  destruct d as [|d|d|d|d|d|d|d|d|d|d]; simpl; try printable_literal;
    (apply printable_cons; [vm_compute; lia|]);
    induction d; simpl; auto using printable_empty;
    (apply printable_cons; [vm_compute; lia|assumption]).
Qed.

Lemma encode_int_printable (n : Z) : printable (Json.encode_int n).
Proof.
  unfold Json.encode_int, NilZero.string_of_int.
  destruct (Z.to_int n).
  - apply string_of_uint_printable.
  - apply printable_cons; [vm_compute; lia|apply string_of_uint_printable].
Qed.

(** X11. [json.dumps] with its default arguments writes printable ASCII
    only: no character of the data of a frame has a code below 32 or
    above 126, whatever the content (control characters, quotes and
    characters outside ASCII of a string are escaped). *)
Theorem dumps_is_printable_ascii (v : json) : printable (Json.dumps v).
Proof.
  induction v as [|b|n|s|items IH|items IH] using json_nested_ind.
  - simpl. printable_literal.
  - destruct b; simpl; printable_literal.
  - apply encode_int_printable.
  - apply encode_str_printable.
  - simpl. apply printable_app; [printable_literal|].
    apply printable_app; [|printable_literal].
    apply printable_concat; [printable_literal|].
    apply Forall_map. exact IH.
  - simpl. apply printable_app; [printable_literal|].
    apply printable_app; [|printable_literal].
    apply printable_concat; [printable_literal|].
    apply Forall_map. eapply Forall_impl; [exact IH|].
    intros [k x] Hx. simpl in *.
    apply printable_app; [apply encode_str_printable|].
    apply printable_app; [printable_literal|exact Hx].
Qed.

(** X12. A frame tells its type and its data: two frames whose types
    are one line each are equal only when the types are equal and the
    data lines are equal. *)
Theorem frame_determines_type_and_data (t1 t2 : string) (c1 c2 : json) :
  Str.single_line t1 -> Str.single_line t2 ->
  create_sse_data {| sse_type := t1; sse_content := c1 |}
  = create_sse_data {| sse_type := t2; sse_content := c2 |} ->
  t1 = t2 /\ frame_body c1 = frame_body c2.
Proof. apply frame_eq_inv. Qed.

Lemma frame_determines_type_and_data_witness :
  Str.single_line "stream_token"
  /\ create_sse_data {| sse_type := "stream_token";
                        sse_content := JDict [("token", JStr "hi")] |}
     = create_sse_data {| sse_type := "stream_token";
                          sse_content := JDict [("token", JStr "hi")] |}
  /\ "stream_token" = "stream_token".
Proof.
  assert (H : Str.single_line "stream_token") by sline_literal.
  split; [exact H|]. split; [reflexivity|].
  exact (proj1 (frame_determines_type_and_data "stream_token" "stream_token"
                  (JDict [("token", JStr "hi")]) (JDict [("token", JStr "hi")])
                  H H eq_refl)).
Defined.

(** ** Every frame of a run *)

Lemma create_sse_data_is_frame (m : SSEMessage) : sse_frame (create_sse_data m).
Proof.
  rewrite create_sse_data_shape. unfold frame_body, sse_frame.
  destruct (sse_content m) eqn:E.
  1: exists (sse_type m); reflexivity.
  all: exists (sse_type m +:+ Str.nl +:+ "data: " +:+ Json.dumps (sse_content m));
    rewrite E, !append_assoc; reflexivity.
Qed.

Lemma translator_frame_is_frame (f : string) : translator_frame f -> sse_frame f.
Proof.
  intros [->|[[c ->]|[[(n & p & ->)|(n & p & ->)]| ->]]];
    apply create_sse_data_is_frame.
Qed.

Lemma opening_frames_are_frames (started : bool) (f : string) :
  sse_frame f ->
  Forall sse_frame ((if started then [] else [sse_stream_start]) ++ [f]).
Proof.
  intros Hf. destruct started; simpl;
    repeat (apply List.Forall_cons); try apply List.Forall_nil;
    try exact Hf; apply create_sse_data_is_frame.
Qed.

Lemma handle_stream_event_frames (run_id thread_id user_input : string)
    (stream_event : StreamEvent) (st : gen_state) :
  Forall sse_frame
    (handle_stream_event run_id thread_id user_input stream_event st).1.1.
Proof.
  destruct stream_event as [|event|msg tags|[e|event_type data]|mode];
    unfold handle_stream_event; try constructor.
  - pose proof (process_stream_updates_kinds event run_id thread_id user_input
                  (g_tool_executions st) (g_stream_started st)
                  (g_completed_tools st)) as Hkinds.
    destruct (process_stream_updates event run_id thread_id user_input
                (g_tool_executions st) (g_stream_started st)
                (g_completed_tools st)) as [[ys pst] r].
    pose proof (forward_updates_fst ys (g_stream_started st)) as Hfw.
    destruct (forward_updates ys (g_stream_started st)) as [out started].
    simpl in *. subst out. apply List.Forall_forall. intros f Hin.
    unfold forwarded in Hin. apply List.filter_In in Hin as [Hin _].
    apply List.in_map_iff in Hin as (y & <- & Hy).
    rewrite List.Forall_forall in Hkinds.
    apply translator_frame_is_frame. now apply Hkinds.
  - destruct (existsb (String.eqb "skip_stream") (default [] tags)); [constructor|].
    destruct msg as [content0|]; [|constructor].
    destruct (remove_tool_calls content0) as [e|content]; [constructor|].
    destruct (content_truthy content); [|constructor].
    destruct content as [s|items]; cbn [fst].
    + apply opening_frames_are_frames. apply create_sse_data_is_frame.
    + destruct (g_stream_started st);
        repeat (apply List.Forall_cons); try apply List.Forall_nil.
      apply create_sse_data_is_frame.
  - cbn [fst]. apply opening_frames_are_frames. apply create_sse_data_is_frame.
  - apply create_sse_data_is_frame.
  - cbn [fst]. constructor.
Qed.

(** X13. Whatever the events of a run and however the run ends, every
    frame [message_generator] sends is well formed: it starts with an
    [event:] line and ends with an empty line. *)
Theorem every_frame_sent_is_well_formed
    (user_input : UserInput) (user_info date agent_id : string) (ids : Uuids)
    (events : list StreamEvent) (ending : SourceEnd) :
  Forall sse_frame
    (message_generator user_input user_info date agent_id ids events ending).1.
Proof.
  unfold message_generator.
  destruct (get_agent agent_id) as [e|graph]; [constructor|].
  destruct (_handle_input user_input ids) as [[input run_id] thread].
  assert (Hloop : Forall sse_frame
            (for_each (handle_stream_event run_id thread (message user_input))
               events initial_gen_state).1.1).
  { apply (for_each_preserves (fun acc _ _ => Forall sse_frame acc)
             (handle_stream_event run_id thread (message user_input)) events)
      with (acc := []) (st := initial_gen_state); [|constructor].
    intros ev acc st _ Hacc. apply Forall_app. split; [exact Hacc|].
    apply handle_stream_event_frames. }
  destruct (for_each (handle_stream_event run_id thread (message user_input))
              events initial_gen_state) as [[fs st] r].
  cbn [fst] in *. apply Forall_app. split; [exact Hloop|].
  apply Forall_app. split.
  - destruct (match r with
              | Some e => Some e
              | None => match ending with Raises e => Some e | _ => None end
              end) as [e|]; [|constructor].
    apply opening_frames_are_frames. apply create_sse_data_is_frame.
  - destruct (g_stream_started st); repeat constructor.
    apply create_sse_data_is_frame.
Qed.

(** ** The opened flag *)

Lemma handle_stream_event_keeps_flag (run_id thread_id user_input : string)
    (stream_event : StreamEvent) (st : gen_state) :
  g_stream_started st = true ->
  g_stream_started
    (handle_stream_event run_id thread_id user_input stream_event st).1.2 = true.
Proof.
  intros Hst.
  destruct stream_event as [|event|msg tags|[e|event_type data]|mode];
    unfold handle_stream_event; try exact Hst; try reflexivity.
  - destruct (process_stream_updates event run_id thread_id user_input
                (g_tool_executions st) (g_stream_started st)
                (g_completed_tools st)) as [[ys pst] r].
    pose proof (forward_updates_keeps_flag ys) as Hflag. rewrite Hst.
    destruct (forward_updates ys true) as [out started]. exact Hflag.
  - destruct (existsb (String.eqb "skip_stream") (default [] tags)); [exact Hst|].
    destruct msg as [content0|]; [|exact Hst].
    destruct (remove_tool_calls content0) as [e|content]; [exact Hst|].
    destruct (content_truthy content); [|exact Hst].
    destruct content; reflexivity.
Qed.

(** X14. The opened flag of the driver never goes back: once it is
    set, it is set after any further events, whatever they are and
    whether or not they raise. *)
Theorem opened_flag_is_monotone (run_id thread_id user_input : string)
    (events : list StreamEvent) (st : gen_state) :
  g_stream_started st = true ->
  g_stream_started
    (for_each (handle_stream_event run_id thread_id user_input) events st).1.2
  = true.
Proof.
  intros Hst.
  apply (for_each_preserves (fun _ st' _ => g_stream_started st' = true)
           (handle_stream_event run_id thread_id user_input) events)
    with (acc := []) (st := st); [|exact Hst].
  intros ev acc st' _. apply handle_stream_event_keeps_flag.
Qed.

Lemma opened_flag_is_monotone_witness :
  g_stream_started
    (for_each (handle_stream_event "run-1" "thread-1" "weather in Paris")
       weather_events
       {| g_tool_executions := ∅; g_completed_tools := [];
          g_stream_started := true; complete_message := "" |}).1.2
  = true.
Proof.
  apply (opened_flag_is_monotone "run-1" "thread-1" "weather in Paris" weather_events).
  reflexivity.
Defined.

(** ** Token deltas with a list content *)

(** X15. A token delta whose content is a list and is not empty once
    the tool calls are removed ends the run: the driver opens the
    stream if needed and then fails to append the list to the text
    accumulated, so the client gets the [TypeError] text in an [error]
    frame and [stream_end], and no later event is processed. *)
Theorem list_content_delta_ends_the_run
    (user_input : UserInput) (user_info date : string) (ids : Uuids)
    (items kept : list ContentItem) (item : ContentItem)
    (later : list StreamEvent) (ending : SourceEnd) :
  remove_tool_use items = inr (item :: kept) ->
  message_generator user_input user_info date "Agent-AI" ids
    (MessagesEvent (AIMessageChunk (ContentList items)) None :: later) ending
  = ([sse_stream_start;
      sse_error (str_exn concat_list_error);
      sse_stream_end (thread_id_or_fresh user_input ids)],
     Returned).
Proof.
  intros Hkept. unfold message_generator. simpl.
  rewrite Hkept. reflexivity.
Qed.

Lemma list_content_delta_ends_the_run_witness :
  remove_tool_use [ItemDict [("type", JStr "text"); ("text", JStr "Hello")]]
  = inr [ItemDict [("type", JStr "text"); ("text", JStr "Hello")]]
  /\ message_generator demo_input "user" "date" "Agent-AI" demo_ids
       [MessagesEvent
          (AIMessageChunk
             (ContentList [ItemDict [("type", JStr "text"); ("text", JStr "Hello")]]))
          None;
        MessagesEvent (AIMessageChunk (ContentStr "world")) None]
       Exhausted
     = ([sse_stream_start;
         sse_error (str_exn concat_list_error);
         sse_stream_end "thread-1"],
        Returned).
Proof.
  split; [reflexivity|].
  apply (list_content_delta_ends_the_run demo_input "user" "date" demo_ids
           [ItemDict [("type", JStr "text"); ("text", JStr "Hello")]] []
           (ItemDict [("type", JStr "text"); ("text", JStr "Hello")])).
  reflexivity.
Defined.

(** ** [stream] *)

(** X16. Under [stream], the thread identifier of the run is the one of
    the request, or the one [stream] generates when the request has
    none; the identifier [_handle_input] could generate is never used.
    So a run either ends with the [stream_end] frame of that
    identifier, or sends no [stream_end] frame at all. *)
Theorem stream_ends_with_its_thread_id
    (user_input : UserInput) (agent_id graph : string) (sids : StreamUuids)
    (formatted_date : string) (ids : Uuids) (events : list StreamEvent)
    (ending : SourceEnd) :
  get_agent agent_id = inr graph ->
  Forall (custom_type_avoids "stream_end") events ->
  Str.truthy (uuid_stream_thread sids) = true ->
  (forall other : string,
      stream user_input agent_id sids formatted_date
        {| uuid_run := uuid_run ids; uuid_thread := other |} events ending
      = stream user_input agent_id sids formatted_date ids events ending)
  /\ (last (stream user_input agent_id sids formatted_date ids events ending).1
      = Some (sse_stream_end (stream_thread_id user_input sids))
      \/ forall t,
           ~ In (sse_stream_end t)
               (stream user_input agent_id sids formatted_date ids events ending).1).
Proof.
  intros Hagent Hcustom Huuid.
  assert (Hthread : forall ids0,
            thread_id_or_fresh (with_thread_id user_input sids) ids0
            = stream_thread_id user_input sids).
  { intros ids0. unfold thread_id_or_fresh, with_thread_id, stream_thread_id.
    destruct (thread_id user_input) as [t|] eqn:Eth;
      [|cbn [thread_id]; now rewrite Huuid].
    destruct (Str.truthy t) eqn:Et; cbn [thread_id].
    + now rewrite Eth, Et.
    + now rewrite Huuid. }
  split.
  - intros other. unfold stream, message_generator, _handle_input.
    rewrite !Hthread. reflexivity.
  - unfold stream.
    pose proof (stream_end_follows_flag (with_thread_id user_input sids)
                  (get_user_info "mock_token"
                     (default "" (thread_id (with_thread_id user_input sids)))
                     (uuid_stream_run sids))
                  formatted_date agent_id graph ids events ending Hagent Hcustom)
      as Hend.
    cbv zeta in Hend. rewrite Hthread in Hend.
    destruct (g_stream_started
                (for_each
                   (handle_stream_event (uuid_run ids)
                      (stream_thread_id user_input sids)
                      (message (with_thread_id user_input sids)))
                   events initial_gen_state).1.2) eqn:Eflag.
    + left. now apply Hend.
    + right. now apply Hend.
Qed.

Lemma stream_ends_with_its_thread_id_witness :
  get_agent "Agent-AI" = inr "Agent_AI"
  /\ Forall (custom_type_avoids "stream_end") weather_events
  /\ Str.truthy "generated-1" = true
  /\ (last (stream {| message := "weather in Paris"; thread_id := None |} "Agent-AI"
              {| uuid_stream_thread := "generated-1"; uuid_stream_run := "run-0" |}
              "Monday" demo_ids weather_events Exhausted).1
      = Some (sse_stream_end "generated-1")
      \/ forall t,
           ~ In (sse_stream_end t)
               (stream {| message := "weather in Paris"; thread_id := None |}
                  "Agent-AI"
                  {| uuid_stream_thread := "generated-1"; uuid_stream_run := "run-0" |}
                  "Monday" demo_ids weather_events Exhausted).1).
Proof.
  assert (H : Forall (custom_type_avoids "stream_end") weather_events).
  { unfold weather_events.
    repeat (apply List.Forall_cons); try apply List.Forall_nil; simpl; try exact I.
    split; [sline_literal|discriminate]. }
  split; [reflexivity|]. split; [exact H|]. split; [reflexivity|].
  exact (proj2 (stream_ends_with_its_thread_id
                  {| message := "weather in Paris"; thread_id := None |}
                  "Agent-AI" "Agent_AI"
                  {| uuid_stream_thread := "generated-1"; uuid_stream_run := "run-0" |}
                  "Monday" demo_ids weather_events Exhausted eq_refl H eq_refl)).
Defined.

(** ** Failures of single messages *)

Lemma for_each_cons {A S Y : Type} (body : A -> step S Y) (x : A) (l : list A)
    (st : S) :
  for_each body (x :: l) st
  = let '(ys, st1, r) := body x st in
    match r with
    | Some e => (ys, st1, Some e)
    | None =>
        let '(ys', st2, r') := for_each body l st1 in
        (ys ++ ys', st2, r')
    end.
Proof. reflexivity. Qed.

Lemma record_tool_calls_keep_chat_message (tool_calls : list ToolCall) (st : psu_state) :
  chat_message (for_each record_tool_call tool_calls st).1.2 = chat_message st.
Proof.
  apply (for_each_preserves (fun _ st' _ => chat_message st' = chat_message st)
           record_tool_call tool_calls) with (acc := []) (st := st); [|reflexivity].
  intros tc acc st' _ Hst'. unfold record_tool_call.
  destruct (tc_name tc), (tc_args tc), (tc_id tc); exact Hst'.
Qed.

Lemma translate_message_binds (run_id thread_id user_input : string)
    (m : BaseMessage) (st : psu_state) :
  chat_message_bound st \/ (exists cm, langchain_to_chat_message m = inr cm) ->
  chat_message_bound (translate_message run_id thread_id user_input m st).1.2.
Proof.
  unfold chat_message_bound, translate_message. intros Hbound.
  destruct (langchain_to_chat_message m) as [e|cm].
  { destruct Hbound as [H|[cm H]]; [exact H|discriminate H]. }
  set (cm' := set_run_thread cm run_id thread_id).
  destruct (is_human (msg_type cm') && String.eqb (msg_content cm') user_input);
    [discriminate|].
  destruct (msg_tool_calls cm') as [|tc tcs].
  - destruct (is_tool (msg_type cm')).
    + cbn [tool_executions bind_chat_message].
      destruct (tool_executions st !! msg_tool_call_id cm'); discriminate.
    + destruct (Str.truthy (msg_content cm')); [|discriminate].
      destruct (negb (stream_started (bind_chat_message cm' st))); discriminate.
  - rewrite record_tool_calls_keep_chat_message. discriminate.
Qed.

Lemma message_error_handler_when_bound (st : psu_state) :
  chat_message_bound st ->
  (message_error_handler st).2 = None
  /\ chat_message_bound (message_error_handler st).1.2
  /\ List.map fst (message_error_handler st).1.1
     = (if stream_started st then [] else [sse_stream_start])
       ++ [sse_error "Unexpected error"].
Proof.
  unfold chat_message_bound, message_error_handler. intros Hbound.
  cbn [chat_message set_started tool_executions].
  destruct (chat_message st) as [cm|] eqn:Ecm; [|contradiction].
  destruct (tool_executions st !! msg_tool_call_id cm); cbn [fst snd];
    (split; [reflexivity|]); (split; [cbn; now rewrite Ecm|]);
    destruct (stream_started st); reflexivity.
Qed.

Lemma process_message_when_bound (run_id thread_id user_input : string)
    (m : BaseMessage) (st : psu_state) :
  chat_message_bound st \/ (exists cm, langchain_to_chat_message m = inr cm) ->
  (process_message run_id thread_id user_input m st).2 = None
  /\ chat_message_bound (process_message run_id thread_id user_input m st).1.2.
Proof.
  intros Hbound. unfold process_message.
  pose proof (translate_message_binds run_id thread_id user_input m st Hbound) as Ht.
  destruct (translate_message run_id thread_id user_input m st) as [[ys st1] r].
  cbn [fst snd] in Ht. destruct r as [e|]; [|now split].
  destruct (message_error_handler_when_bound st1 Ht) as (Hr & Hb & _).
  destruct (message_error_handler st1) as [[ys' st2] r']. now split.
Qed.

(** X17. Once a message of an "updates" event has been converted, no
    message of that event can make [process_stream_updates] raise:
    when the first message of a state update converts, the whole
    update is processed to its end, whatever the later messages are
    (unsupported classes, tool calls without their keys). *)
Theorem failures_after_a_converted_message_are_isolated
    (node : string) (m : BaseMessage) (later : list BaseMessage) (cm : ChatMessage)
    (run_id thread_id user_input : string)
    (pending : gmap (option string) ToolInfo) (started : bool)
    (completed : list string) :
  String.eqb node "__interrupt__" = false ->
  langchain_to_chat_message m = inr cm ->
  (process_stream_updates [(node, UState (Some (m :: later)))]
     run_id thread_id user_input pending started completed).2
  = None.
Proof.
  intros Hnode Hm.
  set (st0 := {| tool_executions := pending; completed_tools := completed;
                 stream_started := started; chat_message := None |}).
  assert (Hmsgs :
    (for_each (process_message run_id thread_id user_input) (m :: later) st0).2
    = None).
  { rewrite for_each_cons.
    destruct (process_message_when_bound run_id thread_id user_input m st0
                (or_intror (ex_intro _ cm Hm))) as [Hr Hb].
    destruct (process_message run_id thread_id user_input m st0) as [[ys st1] r].
    cbn [fst snd] in Hr, Hb. subst r.
    assert (Hloop :
      (for_each (process_message run_id thread_id user_input) later st1).2 = None
      /\ chat_message_bound
           (for_each (process_message run_id thread_id user_input) later st1).1.2).
    { apply (for_each_preserves
               (fun _ st' r' => r' = None /\ chat_message_bound st')
               (process_message run_id thread_id user_input) later)
        with (acc := []) (st := st1); [|now split].
      intros m' acc st' _ [_ Hb']. apply process_message_when_bound. now left. }
    destruct (for_each (process_message run_id thread_id user_input) later st1)
      as [[ys' st2] r'].
    cbn [fst snd] in *. now destruct Hloop as [-> _]. }
  unfold process_stream_updates. fold st0. rewrite for_each_cons.
  unfold process_node. rewrite Hnode.
  change (default [] (Some (m :: later))) with (m :: later).
  destruct (for_each (process_message run_id thread_id user_input) (m :: later) st0)
    as [[ys st1] r].
  cbn [snd] in Hmsgs. subst r. reflexivity.
Qed.

Lemma failures_after_a_converted_message_are_isolated_witness :
  String.eqb "agent" "__interrupt__" = false
  /\ langchain_to_chat_message (AIMessage (ContentStr "a") [] [])
     = inr (mkChatMessage ai "a" None)
  /\ (process_stream_updates
        [("agent",
          UState (Some [AIMessage (ContentStr "a") [] [];
                        OtherMessage "SystemMessage";
                        AIMessage (ContentStr "")
                          [{| tc_name := Some "Add"; tc_args := None;
                              tc_id := Some (Some "call_1") |}] []]))]
        "run-1" "thread-1" "question" ∅ false []).2
     = None.
Proof.
  split; [reflexivity|]. split; [reflexivity|].
  apply (failures_after_a_converted_message_are_isolated "agent"
           (AIMessage (ContentStr "a") [] [])
           [OtherMessage "SystemMessage";
            AIMessage (ContentStr "")
              [{| tc_name := Some "Add"; tc_args := None;
                  tc_id := Some (Some "call_1") |}] []]
           (mkChatMessage ai "a" None)); reflexivity.
Defined.

(** X18. When the local [chat_message] is bound, a message that does
    not convert yields the fixed [error] frame, after [stream_start]
    when the stream was not open, carries no text of the exception,
    raises nothing and opens the stream. *)
Theorem unconvertible_message_yields_the_fixed_error
    (run_id thread_id user_input : string) (m : BaseMessage) (e : exn)
    (st : psu_state) :
  chat_message_bound st ->
  langchain_to_chat_message m = inl e ->
  List.map fst (process_message run_id thread_id user_input m st).1.1
  = (if stream_started st then [] else [sse_stream_start])
    ++ [sse_error "Unexpected error"]
  /\ (process_message run_id thread_id user_input m st).2 = None
  /\ stream_started (process_message run_id thread_id user_input m st).1.2 = true.
Proof.
  intros Hbound Hm. unfold process_message, translate_message. rewrite Hm.
  destruct (message_error_handler_when_bound st Hbound) as (Hr & _ & Hys).
  assert (Hst : stream_started (message_error_handler st).1.2 = true).
  { unfold message_error_handler. cbn [chat_message set_started tool_executions].
    destruct (chat_message st) as [cm0|]; [|reflexivity].
    destruct (tool_executions st !! msg_tool_call_id cm0); reflexivity. }
  destruct (message_error_handler st) as [[ys st1] r]. cbn [fst snd] in *.
  now split.
Qed.

Lemma unconvertible_message_yields_the_fixed_error_witness :
  chat_message_bound
    {| tool_executions := ∅; completed_tools := []; stream_started := false;
       chat_message := Some (mkChatMessage ai "a" None) |}
  /\ langchain_to_chat_message (OtherMessage "SystemMessage")
     = inl (MessageConversionError "Unsupported message type: SystemMessage")
  /\ List.map fst
       (process_message "run-1" "thread-1" "question" (OtherMessage "SystemMessage")
          {| tool_executions := ∅; completed_tools := []; stream_started := false;
             chat_message := Some (mkChatMessage ai "a" None) |}).1.1
     = [sse_stream_start; sse_error "Unexpected error"].
Proof.
  assert (H : chat_message_bound
                {| tool_executions := ∅; completed_tools := [];
                   stream_started := false;
                   chat_message := Some (mkChatMessage ai "a" None) |})
    by discriminate.
  split; [exact H|]. split; [reflexivity|].
  exact (proj1 (unconvertible_message_yields_the_fixed_error
                  "run-1" "thread-1" "question" (OtherMessage "SystemMessage")
                  (MessageConversionError "Unsupported message type: SystemMessage")
                  _ H eq_refl)).
Defined.

(** ** The conversation history *)

Lemma history_of_length (msgs : list BaseMessage) :
  length (history_of msgs) <= length msgs.
Proof.
  induction msgs as [|[c|c tcs md|c id|cls] msgs IH]; simpl; lia.
Qed.

(** X19. The history [extract_conversation_history] builds comes from
    the messages before the current one, the last of the list, which
    is never part of it: it is made of the human and AI messages among
    the [max_history_entries] messages that precede the current one,
    so it has at most [max_history_entries] entries, and none when the
    current message is the only one. *)
Theorem history_is_the_recent_past
    (earlier : list BaseMessage) (current : BaseMessage) (max_history_entries : nat) :
  extract_conversation_history (earlier ++ [current]) max_history_entries
  = history_of (drop (length earlier - max_history_entries) earlier)
  /\ length (extract_conversation_history (earlier ++ [current]) max_history_entries)
     <= max_history_entries
  /\ extract_conversation_history [current] max_history_entries = []
  /\ extract_conversation_history [] max_history_entries = [].
Proof.
  assert (Hrecent :
    recent_messages (earlier ++ [current]) max_history_entries
    = drop (length earlier - max_history_entries) earlier).
  { unfold recent_messages. rewrite length_app. simpl.
    destruct earlier as [|m earlier].
    - reflexivity.
    - replace (1 <? length (m :: earlier) + 1)%nat with true
        by (symmetry; apply Nat.ltb_lt; simpl; lia).
      replace (length (m :: earlier) + 1 - 1) with (length (m :: earlier)) by lia.
      rewrite take_app_length.
      now replace (length (m :: earlier) + 1 - (max_history_entries + 1))
        with (length (m :: earlier) - max_history_entries) by lia. }
  unfold extract_conversation_history. rewrite Hrecent.
  split; [reflexivity|]. split; [|split; reflexivity].
  etransitivity; [apply history_of_length|].
  rewrite length_drop. lia.
Qed.


(** ** The two copies of the opened flag *)

Lemma forward_updates_flag_cons (f : string) (nb : bool) (ys : list psu_yield)
    (b : bool) :
  (forward_updates ((f, nb) :: ys) b).2
  = (forward_updates ys
       (if is_tool_frame f then b else if nb && negb b then nb else b)).2.
Proof.
  cbn [forward_updates]. destruct (is_tool_frame f).
  - now destruct (forward_updates ys b).
  - now destruct (nb && negb b).
Qed.

Lemma forward_updates_flag_app (ys1 ys2 : list psu_yield) (b : bool) :
  (forward_updates (ys1 ++ ys2) b).2
  = (forward_updates ys2 (forward_updates ys1 b).2).2.
Proof.
  revert b. induction ys1 as [|[f nb] ys1 IH]; intros b; [reflexivity|].
  change (((f, nb) :: ys1) ++ ys2) with ((f, nb) :: (ys1 ++ ys2)).
  now rewrite !forward_updates_flag_cons, IH.
Qed.

Lemma error_is_not_tool_frame : is_tool_frame (sse_error "Unexpected error") = false.
Proof. reflexivity. Qed.

Lemma flags_for_each {A : Type} (body : A -> step psu_state psu_yield) (l : list A) :
  (forall x, keeps_flags_equal (body x)) -> keeps_flags_equal (for_each body l).
Proof.
  intros Hbody st.
  apply (for_each_preserves
           (fun acc st' _ =>
              (forward_updates acc (stream_started st)).2 = stream_started st')
           body l) with (acc := []) (st := st); [|reflexivity].
  intros x acc st' _ Hacc. rewrite forward_updates_flag_app, Hacc. apply Hbody.
Qed.

Ltac flags_by_cases :=
  rewrite ?forward_updates_flag_cons, ?stream_start_is_not_tool_frame,
    ?error_is_not_tool_frame, ?start_is_tool_frame, ?complete_is_tool_frame;
  repeat match goal with
         | |- context [is_tool_frame ?f] => destruct (is_tool_frame f)
         end;
  cbn; try reflexivity.

Lemma flags_record_tool_call (tool_call : ToolCall) :
  keeps_flags_equal (record_tool_call tool_call).
Proof.
  intros st. unfold record_tool_call.
  destruct (tc_name tool_call), (tc_args tool_call), (tc_id tool_call);
    cbn [fst snd]; try reflexivity; flags_by_cases.
Qed.

Lemma flags_process_interrupt (interrupt : Interrupt) :
  keeps_flags_equal (process_interrupt interrupt).
Proof.
  intros st. unfold process_interrupt.
  destruct (interrupt_content interrupt) as [content|]; [|reflexivity].
  destruct (stream_started st) eqn:Est; cbn [negb andb].
  - cbn [fst snd]. rewrite Est. flags_by_cases.
  - destruct (Json.truthy content); cbn [fst snd]; rewrite ?Est; flags_by_cases.
Qed.

Lemma flags_message_error_handler : keeps_flags_equal message_error_handler.
Proof.
  intros st. unfold message_error_handler.
  cbn [chat_message set_started tool_executions stream_started].
  destruct (chat_message st) as [cm|];
    [destruct (tool_executions st !! msg_tool_call_id cm)|];
    cbn [fst snd stream_started set_started pop_tool];
    destruct (stream_started st); cbn [app]; flags_by_cases.
Qed.

Lemma flags_translate_message (run_id thread_id user_input : string)
    (m : BaseMessage) :
  keeps_flags_equal (translate_message run_id thread_id user_input m).
Proof.
  intros st. unfold translate_message.
  destruct (langchain_to_chat_message m) as [e|cm]; [reflexivity|].
  set (cm' := set_run_thread cm run_id thread_id).
  destruct (is_human (msg_type cm') && String.eqb (msg_content cm') user_input);
    [reflexivity|].
  destruct (msg_tool_calls cm') as [|tc tcs].
  - destruct (is_tool (msg_type cm')).
    + cbn [tool_executions bind_chat_message].
      destruct (tool_executions st !! msg_tool_call_id cm');
        cbn [fst snd stream_started pop_tool bind_chat_message];
        [flags_by_cases|reflexivity].
    + destruct (Str.truthy (msg_content cm')); [|reflexivity].
      cbn [stream_started bind_chat_message].
      destruct (stream_started st) eqn:Est;
        cbn [negb fst snd stream_started set_started bind_chat_message];
        rewrite ?Est; flags_by_cases.
  - exact (flags_for_each record_tool_call (tc :: tcs) flags_record_tool_call
             (bind_chat_message cm' st)).
Qed.

Lemma flags_process_message (run_id thread_id user_input : string)
    (m : BaseMessage) :
  keeps_flags_equal (process_message run_id thread_id user_input m).
Proof.
  intros st. unfold process_message.
  pose proof (flags_translate_message run_id thread_id user_input m st) as H1.
  destruct (translate_message run_id thread_id user_input m st) as [[ys st1] r].
  cbn [fst snd] in H1. destruct r as [e|]; [|exact H1].
  pose proof (flags_message_error_handler st1) as H2.
  destruct (message_error_handler st1) as [[ys' st2] r']. cbn [fst snd] in *.
  now rewrite forward_updates_flag_app, H1.
Qed.

Lemma flags_process_node (run_id thread_id user_input : string)
    (item : string * Updates) :
  keeps_flags_equal (process_node run_id thread_id user_input item).
Proof.
  intros st. destruct item as [node updates]. unfold process_node.
  destruct (String.eqb node "__interrupt__").
  - destruct updates as [interrupts|[messages|]|]; try reflexivity.
    exact (flags_for_each process_interrupt interrupts flags_process_interrupt st).
  - destruct updates as [interrupts|messages|]; try reflexivity.
    exact (flags_for_each (process_message run_id thread_id user_input)
             (default [] messages)
             (flags_process_message run_id thread_id user_input) st).
Qed.

(** X21. The driver and the translator each keep a copy of the opened
    flag, and the copies agree: after any event of the "updates"
    channel, whether or not it raises, the flag of the driver is the
    flag [process_stream_updates] ended with. *)
Theorem driver_flag_follows_translator_flag
    (event : list (string * Updates)) (run_id thread_id user_input : string)
    (st : gen_state) :
  g_stream_started
    (handle_stream_event run_id thread_id user_input (UpdatesEvent event) st).1.2
  = stream_started
      (process_stream_updates event run_id thread_id user_input
         (g_tool_executions st) (g_stream_started st) (g_completed_tools st)).1.2.
Proof.
  unfold handle_stream_event.
  pose proof (flags_for_each (process_node run_id thread_id user_input) event
                (flags_process_node run_id thread_id user_input)
                {| tool_executions := g_tool_executions st;
                   completed_tools := g_completed_tools st;
                   stream_started := g_stream_started st;
                   chat_message := None |}) as H.
  unfold process_stream_updates.
  destruct (for_each (process_node run_id thread_id user_input) event _)
    as [[ys pst] r].
  cbn [fst snd stream_started] in H.
  destruct (forward_updates ys (g_stream_started st)) as [out started].
  exact H.
Qed.

(** ** [stream_start] within one call of the translator *)

Lemma count_start_cons_neq (f : string) (b : bool) (ys : list psu_yield) :
  f <> sse_stream_start ->
  count_occ string_dec (List.map fst ((f, b) :: ys)) sse_stream_start
  = count_occ string_dec (List.map fst ys) sse_stream_start.
Proof. intros H. cbn [List.map fst]. now apply count_occ_cons_neq. Qed.

Lemma count_start_cons_eq (b : bool) (ys : list psu_yield) :
  count_occ string_dec (List.map fst ((sse_stream_start, b) :: ys)) sse_stream_start
  = S (count_occ string_dec (List.map fst ys) sse_stream_start).
Proof. cbn [List.map fst]. now apply count_occ_cons_eq. Qed.

Lemma count_start_nil :
  count_occ string_dec (List.map fst (@nil psu_yield)) sse_stream_start = 0.
Proof. reflexivity. Qed.

Lemma tool_start_is_not_stream_start (n : string) (p : json) :
  sse_tool_execution_start n p <> sse_stream_start.
Proof.
  apply (tool_frame_is_not_start_or_end (sse_tool_execution_start n p)).
  left. now exists n, p.
Qed.

Lemma tool_complete_is_not_stream_start (n : string) (p : json) :
  sse_tool_execution_complete n p <> sse_stream_start.
Proof.
  apply (tool_frame_is_not_start_or_end (sse_tool_execution_complete n p)).
  right. now exists n, p.
Qed.

Ltac count_starts :=
  rewrite ?count_start_cons_eq,
    ?(count_start_cons_neq _ _ _ (token_is_not_stream_start _)),
    ?(count_start_cons_neq _ _ _ (error_is_not_stream_start _)),
    ?(count_start_cons_neq _ _ _ (tool_start_is_not_stream_start _ _)),
    ?(count_start_cons_neq _ _ _ (tool_complete_is_not_stream_start _ _)),
    ?count_start_nil.

Lemma psu_start_inv_step (started0 : bool) (acc ys : list psu_yield)
    (st st' : psu_state) :
  psu_start_inv started0 acc st -> psu_step_starts st ys st' ->
  psu_start_inv started0 (acc ++ ys) st'.
Proof.
  unfold psu_start_inv, psu_step_starts, psu_yield in *.
  intros (Hoff & Hon & Hle) Hstep.
  rewrite List.map_app, count_occ_app.
  destruct Hstep as [[H0 Hmono]|(Hst & Hst' & H1)].
  - rewrite H0, Nat.add_0_r. split; [|split]; [|exact Hon|exact Hle].
    intros H'. apply Hoff. destruct (stream_started st); [|reflexivity].
    now rewrite Hmono in H'.
  - destruct (Hoff Hst) as [-> Hz]. rewrite Hz, H1. split; [|split].
    + intros H'. now rewrite Hst' in H'.
    + discriminate.
    + simpl. lia.
Qed.

Lemma starts_for_each {A : Type} (body : A -> step psu_state psu_yield) (l : list A) :
  (forall x, keeps_psu_start_inv (body x)) -> keeps_psu_start_inv (for_each body l).
Proof.
  intros Hbody started0 acc st Hacc.
  apply (for_each_preserves (fun acc' st' _ => psu_start_inv started0 acc' st')
           body l); [|exact Hacc].
  intros x acc' st' _ H'. now apply Hbody.
Qed.

Lemma starts_record_tool_call (tool_call : ToolCall) :
  keeps_psu_start_inv (record_tool_call tool_call).
Proof.
  intros started0 acc st Hacc. apply (psu_start_inv_step _ _ _ st); [exact Hacc|].
  left. unfold record_tool_call.
  destruct (tc_name tool_call), (tc_args tool_call), (tc_id tool_call);
    cbn [fst snd]; count_starts; (split; [reflexivity|tauto]).
Qed.

Lemma starts_process_interrupt (interrupt : Interrupt) :
  keeps_psu_start_inv (process_interrupt interrupt).
Proof.
  intros started0 acc st Hacc. apply (psu_start_inv_step _ _ _ st); [exact Hacc|].
  unfold process_interrupt.
  destruct (interrupt_content interrupt) as [content|];
    [|left; cbn [fst snd]; count_starts; tauto].
  destruct (stream_started st) eqn:Est; cbn [negb andb].
  - left. cbn [fst snd]. count_starts. tauto.
  - destruct (Json.truthy content); cbn [fst snd].
    + right. count_starts. now rewrite Est.
    + left. count_starts. tauto.
Qed.

Lemma starts_message_error_handler : keeps_psu_start_inv message_error_handler.
Proof.
  intros started0 acc st Hacc. apply (psu_start_inv_step _ _ _ st); [exact Hacc|].
  unfold message_error_handler.
  cbn [chat_message set_started tool_executions stream_started].
  destruct (chat_message st) as [cm|];
    [destruct (tool_executions st !! msg_tool_call_id cm)|];
    cbn [fst snd stream_started set_started pop_tool];
    (destruct (stream_started st) eqn:Est; cbn [app];
     [left|right]; count_starts; tauto).
Qed.

Lemma starts_translate_message (run_id thread_id user_input : string)
    (m : BaseMessage) :
  keeps_psu_start_inv (translate_message run_id thread_id user_input m).
Proof.
  intros started0 acc st Hacc. unfold translate_message.
  destruct (langchain_to_chat_message m) as [e|cm];
    [cbn [fst snd]; now rewrite app_nil_r|].
  set (cm' := set_run_thread cm run_id thread_id).
  destruct (is_human (msg_type cm') && String.eqb (msg_content cm') user_input);
    [cbn [fst snd]; now rewrite app_nil_r|].
  assert (Hbound : psu_start_inv started0 acc (bind_chat_message cm' st))
    by exact Hacc.
  destruct (msg_tool_calls cm') as [|tc tcs].
  - apply (psu_start_inv_step _ _ _ st); [exact Hacc|].
    destruct (is_tool (msg_type cm')).
    + left. cbn [tool_executions bind_chat_message].
      destruct (tool_executions st !! msg_tool_call_id cm');
        cbn [fst snd stream_started pop_tool bind_chat_message];
        count_starts; tauto.
    + destruct (Str.truthy (msg_content cm'));
        [|left; cbn [fst snd stream_started bind_chat_message]; count_starts; tauto].
      cbn [stream_started bind_chat_message].
      destruct (stream_started st) eqn:Est;
        cbn [negb fst snd stream_started set_started bind_chat_message];
        [left|right]; count_starts; rewrite ?Est; tauto.
  - exact (starts_for_each record_tool_call (tc :: tcs) starts_record_tool_call
             started0 acc (bind_chat_message cm' st) Hbound).
Qed.

Lemma starts_process_message (run_id thread_id user_input : string)
    (m : BaseMessage) :
  keeps_psu_start_inv (process_message run_id thread_id user_input m).
Proof.
  intros started0 acc st Hacc. unfold process_message.
  pose proof (starts_translate_message run_id thread_id user_input m
                started0 acc st Hacc) as H1.
  destruct (translate_message run_id thread_id user_input m st) as [[ys st1] r].
  cbn [fst snd] in H1. destruct r as [e|]; [|exact H1].
  pose proof (starts_message_error_handler started0 (acc ++ ys) st1 H1) as H2.
  destruct (message_error_handler st1) as [[ys' st2] r']. cbn [fst snd] in *.
  now rewrite app_assoc.
Qed.

Lemma starts_process_node (run_id thread_id user_input : string)
    (item : string * Updates) :
  keeps_psu_start_inv (process_node run_id thread_id user_input item).
Proof.
  intros started0 acc st Hacc. destruct item as [node updates].
  unfold process_node.
  destruct (String.eqb node "__interrupt__").
  - destruct updates as [interrupts|[messages|]|];
      try (cbn [fst snd]; now rewrite app_nil_r).
    exact (starts_for_each process_interrupt interrupts starts_process_interrupt
             started0 acc st Hacc).
  - destruct updates as [interrupts|messages|];
      try (cbn [fst snd]; now rewrite app_nil_r).
    exact (starts_for_each (process_message run_id thread_id user_input)
             (default [] messages)
             (starts_process_message run_id thread_id user_input)
             started0 acc st Hacc).
Qed.

(** X22. One call of [process_stream_updates] yields [stream_start] at
    most once, whatever the event holds and however the call ends; it
    yields none when it is called with the flag set, and when it
    yields one the flag is set at the end. *)
Theorem translator_opens_at_most_once
    (event : list (string * Updates)) (run_id thread_id user_input : string)
    (tool_executions0 : gmap (option string) ToolInfo) (started : bool)
    (completed_tools0 : list string) :
  let run := process_stream_updates event run_id thread_id user_input
               tool_executions0 started completed_tools0 in
  let starts := count_occ string_dec (List.map fst run.1.1) sse_stream_start in
  starts <= 1
  /\ (started = true -> starts = 0)
  /\ (starts = 1 -> stream_started run.1.2 = true).
Proof.
  cbv zeta. unfold process_stream_updates.
  pose proof (starts_for_each (process_node run_id thread_id user_input) event
                (starts_process_node run_id thread_id user_input)
                started []
                {| tool_executions := tool_executions0;
                   completed_tools := completed_tools0;
                   stream_started := started;
                   chat_message := None |}) as H.
  cbn [app] in H.
  destruct H as (Hoff & Hon & Hle).
  - unfold psu_start_inv. cbn [stream_started]. rewrite count_start_nil.
    split; [|split]; [intros ->; now split|reflexivity|lia].
  - split; [exact Hle|split; [exact Hon|]].
    intros H1.
    destruct (stream_started _) eqn:E in Hoff |- *; [reflexivity|].
    destruct (Hoff eq_refl) as [_ Hz]. rewrite Hz in H1. discriminate.
Qed.

(** ** The client's buffer *)

Lemma split_blank_line_cases (P : string -> Prop) :
  P EmptyString ->
  (forall s, P s -> P (String Str.LF (String Str.LF s))) ->
  (forall c s,
     split_blank_line (String c s) = push c (split_blank_line s) ->
     (forall t, split_blank_line (String c (s +:+ t))
                = if Str.truthy s then push c (split_blank_line (s +:+ t))
                  else split_blank_line (String c t)) ->
     P s -> P (String c s)) ->
  forall s, P s.
Proof.
  intros Hempty Hsep Hpush s.
  cut (P s /\ forall c, P (String c s)); [tauto|].
  induction s as [|a s [IHs IHc]].
  - split; [exact Hempty|]. intros c. now apply Hpush.
  - split; [apply IHc|]. intros c.
    destruct (Ascii.eqb c Str.LF && Ascii.eqb a Str.LF) eqn:E.
    + apply andb_true_iff in E as [Ec Ea].
      apply Ascii.eqb_eq in Ec, Ea. subst. now apply Hsep.
    + apply Hpush; [simpl; now rewrite E| |apply IHc].
      intros t. cbn [Str.truthy].
      change (String a s +:+ t) with (String a (s +:+ t)).
      cbn [split_blank_line]. now rewrite E.
Qed.

Lemma split_blank_line_not_nil (s : string) : split_blank_line s <> [].
Proof.
  induction s as [| s IH | c s E _ IH] using split_blank_line_cases;
    [discriminate|discriminate|].
  rewrite E. now destruct (split_blank_line s).
Qed.

Lemma split_blank_line_single (s p : string) :
  split_blank_line s = [p] -> p = s.
Proof.
  revert p. induction s as [| s IH | c s E _ IH] using split_blank_line_cases;
    intros p H.
  - now injection H.
  - cbn in H. pose proof (split_blank_line_not_nil s).
    destruct (split_blank_line s); [contradiction|discriminate].
  - rewrite E in H. destruct (split_blank_line s) as [|q [|q' qs]] eqn:Es.
    + now apply split_blank_line_not_nil in Es.
    + injection H as <-. now rewrite (IH q eq_refl).
    + discriminate.
Qed.

Lemma removelast_cons2 {A : Type} (x y : A) (l : list A) :
  removelast (x :: y :: l) = x :: removelast (y :: l).
Proof. reflexivity. Qed.

Lemma last_cons2 {A : Type} (x y d : A) (l : list A) :
  List.last (x :: y :: l) d = List.last (y :: l) d.
Proof. reflexivity. Qed.

(** Splitting a text that grows: the pieces already closed stay, and
    the open piece goes on with what arrives. *)
Lemma split_blank_line_app (b c : string) :
  split_blank_line (b +:+ c)
  = removelast (split_blank_line b)
    ++ split_blank_line (List.last (split_blank_line b) EmptyString +:+ c).
Proof.
  induction b as [| b IH | a b E Eapp IH] using split_blank_line_cases.
  - reflexivity.
  - change (String Str.LF (String Str.LF b) +:+ c)
      with (String Str.LF (String Str.LF (b +:+ c))).
    cbn [split_blank_line Ascii.eqb Str.LF Bool.eqb andb].
    pose proof (split_blank_line_not_nil b).
    destruct (split_blank_line b) as [|p ps] eqn:Eb; [contradiction|].
    rewrite removelast_cons2, last_cons2. cbn [app]. now rewrite IH.
  - change (String a b +:+ c) with (String a (b +:+ c)).
    rewrite Eapp, E. destruct b as [|x b]; [reflexivity|].
    cbn [Str.truthy]. rewrite IH.
    destruct (split_blank_line (String x b)) as [|p [|q ps]] eqn:Eb.
    + now apply split_blank_line_not_nil in Eb.
    + apply split_blank_line_single in Eb as ->.
      cbn [removelast List.last push app].
      change (String a (String x b) +:+ c) with (String a (String x b +:+ c)).
      now rewrite Eapp.
    + cbn [push]. rewrite !removelast_cons2, !last_cons2. reflexivity.
Qed.

(** The open piece holds no separator. *)
Lemma split_blank_line_last (s : string) :
  split_blank_line (List.last (split_blank_line s) EmptyString)
  = [List.last (split_blank_line s) EmptyString].
Proof.
  induction s as [| s IH | a s E _ IH] using split_blank_line_cases.
  - reflexivity.
  - cbn [split_blank_line Ascii.eqb Str.LF Bool.eqb andb].
    pose proof (split_blank_line_not_nil s).
    destruct (split_blank_line s) as [|p ps] eqn:Es; [contradiction|].
    now rewrite last_cons2.
  - rewrite E. destruct (split_blank_line s) as [|p [|q ps]] eqn:Es.
    + now apply split_blank_line_not_nil in Es.
    + apply split_blank_line_single in Es as Hp. subst p.
      cbn [push List.last]. exact E.
    + cbn [push]. rewrite last_cons2. exact IH.
Qed.

Lemma removelast_last_split (s : string) :
  removelast (split_blank_line s) ++ [List.last (split_blank_line s) EmptyString]
  = split_blank_line s.
Proof.
  symmetry. apply app_removelast_last. apply split_blank_line_not_nil.
Qed.

Lemma append_nil_r (s : string) : s +:+ EmptyString = s.
Proof.
  induction s as [|c s IH]; [reflexivity|].
  change (String c s +:+ EmptyString) with (String c (s +:+ EmptyString)).
  now rewrite IH.
Qed.

Lemma take_chunks_split (chunks : list string) (buffer : string) :
  (take_chunks buffer chunks).1 ++ split_blank_line (take_chunks buffer chunks).2
  = split_blank_line (buffer +:+ String.concat EmptyString chunks).
Proof.
  revert buffer. induction chunks as [|chunk rest IH]; intros buffer.
  - cbn. now rewrite append_nil_r.
  - cbn [take_chunks take_chunk]. cbv zeta.
    specialize (IH (List.last (split_blank_line (buffer +:+ chunk)) EmptyString)).
    destruct (take_chunks _ rest) as [more final]. cbn [fst snd] in *.
    rewrite <- app_assoc, IH.
    replace (String.concat EmptyString (chunk :: rest))
      with (chunk +:+ String.concat EmptyString rest).
    + rewrite <- append_assoc. symmetry. apply split_blank_line_app.
    + destruct rest; [now rewrite append_nil_r|reflexivity].
Qed.

Lemma take_chunks_final (chunks : list string) (buffer : string) :
  split_blank_line buffer = [buffer] ->
  split_blank_line (take_chunks buffer chunks).2 = [(take_chunks buffer chunks).2].
Proof.
  revert buffer. induction chunks as [|chunk rest IH]; intros buffer Hb;
    [exact Hb|].
  cbn [take_chunks take_chunk]. cbv zeta.
  specialize (IH _ (split_blank_line_last (buffer +:+ chunk))).
  now destruct (take_chunks _ rest) as [more final].
Qed.

(** X23. How the response is cut into chunks does not matter to the
    client: the lines it goes through, followed by what is left in the
    buffer, are the pieces of the whole text between blank lines. *)
Theorem chunking_does_not_change_the_lines (chunks : list string) :
  (stream_agent_response_lines chunks).1 ++ [(stream_agent_response_lines chunks).2]
  = split_blank_line (String.concat EmptyString chunks).
Proof.
  unfold stream_agent_response_lines.
  rewrite <- (take_chunks_final chunks EmptyString eq_refl).
  apply (take_chunks_split chunks EmptyString).
Qed.

(** ** The frames of the server, as the client cuts them *)

Lemma split_cons_not_LF (a : ascii) (s : string) :
  a <> Str.LF -> split_blank_line (String a s) = push a (split_blank_line s).
Proof.
  intros Ha. destruct s as [|c s]; [reflexivity|].
  cbn [split_blank_line]. destruct (Ascii.eqb_spec a Str.LF); [contradiction|].
  reflexivity.
Qed.

Lemma split_LF_not_LF (c : ascii) (s : string) :
  c <> Str.LF ->
  split_blank_line (String Str.LF (String c s))
  = push Str.LF (split_blank_line (String c s)).
Proof.
  intros Hc. cbn [split_blank_line].
  destruct (Ascii.eqb_spec c Str.LF); [contradiction|].
  now rewrite andb_false_r.
Qed.

(** A text of one line, then an empty line: the line is a piece. *)
Lemma split_line_then_blank (s rest : string) :
  Str.single_line s ->
  split_blank_line (s +:+ (Str.nl +:+ (Str.nl +:+ rest)))
  = s :: split_blank_line rest.
Proof.
  induction s as [|a s IH]; intros Hs; [reflexivity|].
  apply single_line_head in Hs as [Ha Hs].
  rewrite append_cons, (split_cons_not_LF _ _ Ha), (IH Hs). reflexivity.
Qed.

(** A text of one line, then a line feed and a character that is not
    one: the line joins the piece that follows. *)
Lemma split_line_then_line (s : string) (c : ascii) (u : string) :
  Str.single_line s -> c <> Str.LF ->
  split_blank_line (s +:+ (Str.nl +:+ String c u))
  = match split_blank_line (String c u) with
    | p :: ps => (s +:+ (Str.nl +:+ p)) :: ps
    | [] => []
    end.
Proof.
  intros Hs Hc. pose proof (split_blank_line_not_nil (String c u)) as Hne.
  induction s as [|a s IH].
  - change (EmptyString +:+ (Str.nl +:+ String c u))
      with (String Str.LF (String c u)).
    rewrite (split_LF_not_LF _ _ Hc).
    now destruct (split_blank_line (String c u)).
  - apply single_line_head in Hs as [Ha Hs].
    rewrite append_cons, (split_cons_not_LF _ _ Ha), (IH Hs).
    now destruct (split_blank_line (String c u)).
Qed.

Lemma split_frame (m : SSEMessage) (rest : string) :
  Str.single_line (sse_type m) ->
  split_blank_line (create_sse_data m +:+ rest)
  = frame_line m :: split_blank_line rest.
Proof.
  intros Ht. rewrite create_sse_data_shape. unfold frame_line, frame_body.
  assert (Hhead : Str.single_line ("event: " +:+ sse_type m))
    by (apply single_line_app; [sline_literal|exact Ht]).
  assert (Hdata : forall v, Str.single_line ("data: " +:+ Json.dumps v))
    by (intros v; apply single_line_app; [sline_literal|apply dumps_single_line]).
  destruct (sse_content m) eqn:Ec.
  1: { change (EmptyString +:+ Str.nl) with Str.nl.
       rewrite append_nil_r, !append_assoc.
       rewrite <- (append_assoc "event: " (sse_type m)).
       now apply split_line_then_blank. }
  all: rewrite !append_assoc;
    rewrite <- (append_assoc "event: " (sse_type m));
    change ("data: " +:+ ?x) with (String "d" ("ata: " +:+ x)) at 1;
    rewrite (split_line_then_line _ "d" _ Hhead) by discriminate;
    change (String "d" ("ata: " +:+ ?x)) with ("data: " +:+ x);
    rewrite <- (append_assoc "data: ");
    rewrite (split_line_then_blank _ rest (Hdata _));
    now rewrite !append_assoc.
Qed.

Lemma concat_empty_cons (s : string) (l : list string) :
  String.concat EmptyString (s :: l) = s +:+ String.concat EmptyString l.
Proof. destruct l; [now rewrite append_nil_r|reflexivity]. Qed.

Lemma split_frames (messages : list SSEMessage) :
  Forall (fun m => Str.single_line (sse_type m)) messages ->
  split_blank_line (String.concat EmptyString (List.map create_sse_data messages))
  = List.map frame_line messages ++ [EmptyString].
Proof.
  induction 1 as [|m messages Hm _ IH]; [reflexivity|].
  cbn [List.map]. rewrite concat_empty_cons, (split_frame _ _ Hm), IH.
  reflexivity.
Qed.

(** X24. The client finds the frames of the server again.  When the
    text received, in whatever chunks, is a sequence of frames of
    [create_sse_data] whose types are one line each, the lines the
    client goes through are these frames without their empty line, one
    line per frame and in order, and nothing is left in the buffer. *)
Theorem client_recovers_the_frames (messages : list SSEMessage)
    (chunks : list string) :
  Forall (fun m => Str.single_line (sse_type m)) messages ->
  String.concat EmptyString chunks
  = String.concat EmptyString (List.map create_sse_data messages) ->
  stream_agent_response_lines chunks = (List.map frame_line messages, EmptyString).
Proof.
  intros Htypes Htext. unfold stream_agent_response_lines.
  pose proof (take_chunks_split chunks EmptyString) as Hsplit.
  rewrite (take_chunks_final chunks EmptyString eq_refl) in Hsplit.
  change (EmptyString +:+ String.concat EmptyString chunks)
    with (String.concat EmptyString chunks) in Hsplit.
  rewrite Htext, (split_frames _ Htypes) in Hsplit.
  apply app_inj_tail in Hsplit as [Hlines Hfinal].
  destruct (take_chunks EmptyString chunks) as [lines final].
  cbn [fst snd] in *. now subst.
Qed.

Lemma client_recovers_the_frames_witness :
  Forall (fun m => Str.single_line (sse_type m)) sample_frames
  /\ String.concat EmptyString sample_chunks
     = String.concat EmptyString (List.map create_sse_data sample_frames)
  /\ stream_agent_response_lines sample_chunks
     = (List.map frame_line sample_frames, EmptyString).
Proof.
  assert (H : Forall (fun m => Str.single_line (sse_type m)) sample_frames).
  { apply List.Forall_cons; [cbn [sse_type]; sline_literal|].
    apply List.Forall_cons; [cbn [sse_type]; sline_literal|].
    apply List.Forall_nil. }
  split; [exact H|]. split; [vm_compute; reflexivity|].
  apply (client_recovers_the_frames sample_frames sample_chunks H).
  vm_compute. reflexivity.
Defined.

(** ** The fields the client reads in a line *)

Lemma split_lines_single_line (s : string) :
  Str.single_line s -> StrOps.split_lines s = [s].
Proof.
  induction s as [|c s IH]; intros Hs; [reflexivity|].
  apply single_line_head in Hs as [Hc Hs]. cbn [StrOps.split_lines].
  destruct (Ascii.eqb_spec c Str.LF); [contradiction|]. now rewrite (IH Hs).
Qed.

Lemma split_lines_app (s u : string) :
  Str.single_line s ->
  StrOps.split_lines (s +:+ (Str.nl +:+ u)) = s :: StrOps.split_lines u.
Proof.
  induction s as [|c s IH]; intros Hs; [reflexivity|].
  apply single_line_head in Hs as [Hc Hs].
  rewrite append_cons. cbn [StrOps.split_lines].
  destruct (Ascii.eqb_spec c Str.LF); [contradiction|]. now rewrite (IH Hs).
Qed.

Lemma read_event_subline (fields : line_fields) (t : string) :
  read_subline fields ("event: " +:+ t)
  = {| event_type := Some (StrOps.strip t); loads_args := loads_args fields |}.
Proof. reflexivity. Qed.

Lemma read_data_subline (fields : line_fields) (d : string) :
  read_subline fields ("data: " +:+ d)
  = {| event_type := event_type fields; loads_args := loads_args fields ++ [d] |}.
Proof. reflexivity. Qed.

(** X25. What the client reads in a frame of the server whose type is
    one line: the event type is the type of the frame without the
    white space around it, and [json.loads] is called once, on the
    text [json.dumps] gave for the content, or not at all when the
    frame has no content. *)
Theorem client_reads_type_and_data (t : string) (content : json) :
  Str.single_line t ->
  read_line (frame_line {| sse_type := t; sse_content := content |})
  = {| event_type := Some (StrOps.strip t);
       loads_args := match content with
                     | JNull => []
                     | _ => [Json.dumps content]
                     end |}.
Proof.
  intros Ht. unfold read_line, frame_line. cbn [sse_type sse_content].
  assert (Hhead : Str.single_line ("event: " +:+ t))
    by (apply single_line_app; [sline_literal|exact Ht]).
  assert (Hdata : forall v, Str.single_line ("data: " +:+ Json.dumps v))
    by (intros v; apply single_line_app; [sline_literal|apply dumps_single_line]).
  destruct content.
  1: { rewrite append_nil_r, (split_lines_single_line _ Hhead).
       cbn [fold_left]. apply read_event_subline. }
  all: rewrite <- (append_assoc "event: " t);
    rewrite (split_lines_app _ _ Hhead);
    rewrite (split_lines_single_line _ (Hdata _));
    cbn [fold_left]; rewrite read_event_subline, read_data_subline;
    reflexivity.
Qed.

Lemma client_reads_type_and_data_witness :
  Str.single_line " stream_token "
  /\ read_line (frame_line {| sse_type := " stream_token ";
                              sse_content := JDict [("token", JStr "Hi")] |})
     = {| event_type := Some "stream_token";
          loads_args := [Json.dumps (JDict [("token", JStr "Hi")])] |}.
Proof.
  assert (H : Str.single_line " stream_token ") by sline_literal.
  split; [exact H|].
  exact (client_reads_type_and_data " stream_token "
           (JDict [("token", JStr "Hi")]) H).
Defined.

(** ** The configuration of the client *)

Lemma get_config_falls_back (environ : Environ) (file : option FileContent)
    (default_config : Config) :
  environ_truthy environ "API_URL" = false -> falls_back file = true ->
  get_config environ file default_config
  = if environ_truthy environ "BEARER_TOKEN"
       && negb (token_truthy (bearer_token default_config))
    then inr (set_bearer_token TheDefault (environ !! "BEARER_TOKEN") default_config)
    else inr (TheDefault, default_config).
Proof.
  intros Hurl Hfile. unfold get_config. rewrite Hurl.
  destruct file as [[config|[| | |class_name]]|]; try discriminate; reflexivity.
Qed.

(** X26. A token read from the environment stays in [default_config].
    When a call of [get_config] falls back on [default_config], which
    has no token, and [BEARER_TOKEN] is set, the token is written into
    [default_config]; a later call that falls back again returns that
    token whatever [BEARER_TOKEN] is by then, set to another value or
    not set. *)
Theorem environment_token_stays_in_default_config
    (environ environ' : Environ) (file file' : option FileContent)
    (default_config : Config) (token : string) :
  environ_truthy environ "API_URL" = false ->
  environ_truthy environ' "API_URL" = false ->
  falls_back file = true -> falls_back file' = true ->
  token_truthy (bearer_token default_config) = false ->
  environ !! "BEARER_TOKEN" = Some token -> Str.truthy token = true ->
  exists default_config',
    get_config environ file default_config = inr (TheDefault, default_config')
    /\ get_config environ' file' default_config' = inr (TheDefault, default_config')
    /\ bearer_token default_config' = Some token
    /\ api_url default_config' = api_url default_config
    /\ config_agents default_config' = config_agents default_config.
Proof.
  intros Hurl Hurl' Hfile Hfile' Hnone Htoken Htruthy.
  exists {| api_url := api_url default_config;
            config_agents := config_agents default_config;
            bearer_token := Some token |}.
  rewrite (get_config_falls_back _ _ _ Hurl Hfile),
    (get_config_falls_back _ _ _ Hurl' Hfile').
  unfold environ_truthy at 1. rewrite Htoken, Htruthy, Hnone.
  cbn [andb negb set_bearer_token bearer_token token_truthy api_url config_agents].
  rewrite Htruthy, andb_false_r. auto.
Qed.

Lemma environment_token_stays_in_default_config_witness :
  exists default_config',
    get_config {[ "BEARER_TOKEN" := "first" ]} None initial_default_config
    = inr (TheDefault, default_config')
    /\ get_config {[ "BEARER_TOKEN" := "second" ]} (Some (Fails JSONDecodeError))
         default_config'
       = inr (TheDefault, default_config')
    /\ bearer_token default_config' = Some "first"
    /\ api_url default_config' = api_url initial_default_config
    /\ config_agents default_config' = config_agents initial_default_config.
Proof.
  apply (environment_token_stays_in_default_config
           {[ "BEARER_TOKEN" := "first" ]} {[ "BEARER_TOKEN" := "second" ]}
           None (Some (Fails JSONDecodeError)) initial_default_config "first");
    reflexivity.
Defined.

(** ** Query parameters *)

Lemma endswith_char_append (c : ascii) (s : string) :
  endswith_char c (s +:+ String c EmptyString) = true.
Proof.
  induction s as [|a s IH]; [apply Ascii.eqb_refl|].
  rewrite append_cons. cbn [endswith_char].
  destruct (s +:+ String c EmptyString) eqn:E; [|exact IH].
  destruct s; discriminate E.
Qed.

Lemma remove_char_absent (c : ascii) (s : string) :
  ~ In c (Str.chars (remove_char c s)).
Proof.
  induction s as [|a s IH]; [intros []|].
  cbn [remove_char]. destruct (Ascii.eqb_spec a c) as [->|Hne]; [exact IH|].
  intros [H|H]; [contradiction|now apply IH].
Qed.

(** X27. [format_like_param] gives a pattern with a star at both ends,
    and a pattern it has given is left as it is when formatted again.
    The pattern is either the text as it was given or a text without
    any star put between two stars. *)
Theorem format_like_param_wraps_once (param : string) :
  exists pattern,
    format_like_param (Some param) = Some pattern
    /\ StrOps.startswith (String STAR EmptyString) pattern = true
    /\ endswith_char STAR pattern = true
    /\ format_like_param (Some pattern) = Some pattern
    /\ (pattern = param
        \/ exists inner, pattern
                         = String STAR EmptyString +:+ inner +:+ String STAR EmptyString
                         /\ ~ In STAR (Str.chars inner)).
Proof.
  unfold format_like_param at 1.
  destruct (StrOps.startswith (String STAR EmptyString) param
            && endswith_char STAR param) eqn:E.
  - exists param. apply andb_true_iff in E as E'. destruct E' as [E1 E2].
    split; [reflexivity|]. split; [exact E1|]. split; [exact E2|].
    split; [|now left]. cbn [format_like_param]. now rewrite E.
  - eexists. split; [reflexivity|].
    assert (Hend : endswith_char STAR
                     (String STAR EmptyString
                      +:+ remove_char STAR param +:+ String STAR EmptyString) = true).
    { change (String STAR EmptyString +:+ ?x) with (String STAR x).
      rewrite <- append_cons. apply endswith_char_append. }
    split; [reflexivity|]. split; [exact Hend|]. split.
    + cbn [format_like_param]. rewrite Hend. reflexivity.
    + right. exists (remove_char STAR param).
      split; [reflexivity|apply remove_char_absent].
Qed.
